(** * A boundary-tag allocator ([malloc.c]) and its specification

    The allocator of [src/malloc.c] is embedded as functions over an explicit
    allocator state: the five file-scope variables of the C file, the
    byte-addressed process memory, and the operating system's program break.

    Target assumptions, as on the LP64 machines the program is written for:
    pointers and [uint64_t] are 64 bits wide and wrap around modulo [2^64],
    [unsigned int] is 32 bits wide, memory is little-endian, [NULL] is address
    [0] and the pointer value [-1] is address [2^64 - 1].  [struct block_header_t] has its
    [size] field at offset 0, [next] at offset 8 and [prev] at offset 16, so
    [sizeof(struct block_header_t) = 24]; [struct block_footer_t] is one
    [uint64_t], so its size is 8. *)

From Stdlib Require Import ZArith List Bool Lia.
Import ListNotations.
Local Open Scope Z_scope.

(** ** Machine words *)

Definition two64 : Z := 18446744073709551616.
Definition two32 : Z := 4294967296.

(** Reduction of an integer to an unsigned 64-bit value. *)
Definition wrap64 (z : Z) : Z := z mod two64.

Definition NULL : Z := 0.
(** The value of [-1] converted to a pointer or to [uint64_t]. *)
Definition NEG1 : Z := wrap64 (-1).

Definition SIZEOF_U64 : Z := 8.
Definition SIZEOF_HEADER : Z := 24.
Definition SIZEOF_FOOTER : Z := 8.

Definition INIIAL_HEAP_SIZE : Z := 1024.
Definition ALLOC_SIZE : Z := 1024.
Definition MINIMUM_ALLOC_SIZE : Z := 16.
Definition MINIMUM_BLOCK_SIZE : Z := SIZEOF_U64 + MINIMUM_ALLOC_SIZE + SIZEOF_FOOTER.

(** ** Byte-addressed memory *)

(** Memory as the operating system hands it out is filled with zeros; its
    contents are then determined by the 64-bit words the program stored, which
    are recorded latest first as pairs of an address and a word. *)
Definition memory : Type := list (Z * Z).

Definition zero_memory : memory := [].

(** The byte at address [x]: taken from the latest store that covers [x]
    (little-endian), zero when there is none. *)
Fixpoint byte_at (m : memory) (x : Z) : Z :=
  match m with
  | [] => 0
  | (a, v) :: m' =>
      let d := wrap64 (x - a) in
      if d <? 8 then (v / 2 ^ (8 * d)) mod 256 else byte_at m' x
  end.

Definition load8 (m : memory) (a : Z) : Z := byte_at m (wrap64 a).

(** Little-endian read of the eight bytes at [a .. a+7]. *)
Definition load64 (m : memory) (a : Z) : Z :=
  load8 m a
  + load8 m (a + 1) * 2 ^ 8
  + load8 m (a + 2) * 2 ^ 16
  + load8 m (a + 3) * 2 ^ 24
  + load8 m (a + 4) * 2 ^ 32
  + load8 m (a + 5) * 2 ^ 40
  + load8 m (a + 6) * 2 ^ 48
  + load8 m (a + 7) * 2 ^ 56.

(** Little-endian write of the 64-bit word [v] to the eight bytes at
    [a .. a+7]. *)
Definition store64 (m : memory) (a v : Z) : memory := (a, v) :: m.

(** Two 8-byte cells do not overlap. *)
Definition cells_apart (a b : Z) : Prop :=
  8 <= wrap64 (b - a) <= two64 - 8.

(** ** The operating system's program break *)

(** The break is extended by [sbrk].  The answers the system will give to the
    coming extension requests are a finite script ([true]: granted, [false]:
    refused); once the script is used up every request is refused. *)
Record os_state : Type := mkOS {
  brk : Z;
  script : list bool
}.

(** [sbrk(incr)]: the new system state and the returned address, which is the
    previous break on success and [-1] on refusal.  [sbrk(0)] only reports the
    break. *)
Definition sbrk (o : os_state) (incr : Z) : os_state * Z :=
  if incr =? 0 then (o, brk o)
  else
    match script o with
    | [] => (o, NEG1)
    | true :: rest => (mkOS (wrap64 (brk o + incr)) rest, brk o)
    | false :: rest => (mkOS (brk o) rest, NEG1)
    end.

(** ** Allocator state *)

(** The file-scope variables [heap], [heap_end], [last], [first] and
    [free_list], the memory they point into, and the system state. *)
Record state : Type := mkState {
  mem : memory;
  heap : Z;
  heap_end : Z;
  last : Z;
  first : Z;
  free_list : Z;
  os : os_state
}.

Definition set_mem (st : state) (m : memory) : state :=
  mkState m (heap st) (heap_end st) (last st) (first st) (free_list st) (os st).
Definition set_heap (st : state) (v : Z) : state :=
  mkState (mem st) v (heap_end st) (last st) (first st) (free_list st) (os st).
Definition set_heap_end (st : state) (v : Z) : state :=
  mkState (mem st) (heap st) v (last st) (first st) (free_list st) (os st).
Definition set_last (st : state) (v : Z) : state :=
  mkState (mem st) (heap st) (heap_end st) v (first st) (free_list st) (os st).
Definition set_first (st : state) (v : Z) : state :=
  mkState (mem st) (heap st) (heap_end st) (last st) v (free_list st) (os st).
Definition set_free_list (st : state) (v : Z) : state :=
  mkState (mem st) (heap st) (heap_end st) (last st) (first st) v (os st).
Definition set_os (st : state) (o : os_state) : state :=
  mkState (mem st) (heap st) (heap_end st) (last st) (first st) (free_list st) o.

(** Reading and writing a [uint64_t] or pointer object through a pointer. *)
Definition read (st : state) (a : Z) : Z := load64 (mem st) a.
Definition write (st : state) (a v : Z) : state :=
  set_mem st (store64 (mem st) a v).

(** The state of the program when it starts: nothing initialised, the break
    at [base], fresh memory filled with zeros. *)
Definition start_state (base : Z) (answers : list bool) : state :=
  mkState zero_memory NEG1 NEG1 NULL NULL NULL (mkOS base answers).

(** ** Block layout and encoding *)

(** Addresses of the [next] and [prev] fields of a block header. *)
Definition next_field (block : Z) : Z := wrap64 (block + 8).
Definition prev_field (block : Z) : Z := wrap64 (block + 16).

(** [(uint64_t)-2], the mask of [set_used] and [get_size]. *)
Definition MASK_M2 : Z := wrap64 (-2).
(** [(uint64_t)-8], the mask of [round]. *)
Definition MASK_M8 : Z := wrap64 (-8).

Definition is_free (st : state) (block : Z) : bool :=
  Z.land (read st block) 1 =? 1.

Definition set_free (st : state) (block : Z) : state :=
  write st block (Z.lor (read st block) 1).

Definition set_used (st : state) (block : Z) : state :=
  write st block (Z.land (read st block) MASK_M2).

Definition get_size (st : state) (block : Z) : Z :=
  Z.land (read st block) MASK_M2.

Definition get_footer_from_header (st : state) (header : Z) : Z :=
  wrap64 (header + get_size st header + SIZEOF_U64).

Definition get_header_from_footer (st : state) (footer : Z) : Z :=
  wrap64 (footer - get_size st footer - SIZEOF_U64).

Definition head_addr (data : Z) : Z := wrap64 (data - SIZEOF_U64).

Definition data_addr (m_block : Z) : Z := wrap64 (m_block + SIZEOF_U64).

Definition next_available_block (st : state) : Z :=
  if last st =? NULL then heap st
  else wrap64 (last st + SIZEOF_U64 + get_size st (last st) + SIZEOF_FOOTER).

(** [round] returns [unsigned int]: the 64-bit result of the masking is
    converted to 32 bits. *)
Definition round (size : Z) : Z :=
  Z.land (wrap64 (size + 7)) MASK_M8 mod two32.

(** ** Heap growth *)

(** [Sbrk()]: returns 0 when the heap was extended and 1 when it was not. *)
Definition Sbrk (st : state) : state * Z :=
  let (o, returned_addr) := sbrk (os st) ALLOC_SIZE in
  if negb (returned_addr =? NEG1)
  then (set_heap_end (set_os st o) (wrap64 (heap_end st + ALLOC_SIZE)), 0)
  else (set_os st o, 1).

Definition init (st : state) : state :=
  if heap st =? NEG1 then
    let (o1, h) := sbrk (os st) 0 in
    let (o2, returned_addr) := sbrk o1 INIIAL_HEAP_SIZE in
    if returned_addr =? NEG1
    then set_heap_end (set_heap (set_os st o2) NEG1) NEG1
    else set_heap_end (set_heap (set_os st o2) h) (wrap64 (h + INIIAL_HEAP_SIZE))
  else st.

(** ** Free list *)

Definition add_to_free_list (st : state) (block : Z) : state :=
  let st := write st (next_field block) (free_list st) in
  let st := write st (prev_field block) NULL in
  let st :=
    if negb (free_list st =? NULL)
    then write st (prev_field (free_list st)) block
    else st in
  let st := set_free_list st block in
  let st := set_free st block in
  set_free st (get_footer_from_header st block).

Definition remove_from_free_list (st : state) (block : Z) : state :=
  let st :=
    if negb (read st (next_field block) =? NULL)
    then write st (prev_field (read st (next_field block)))
                  (read st (prev_field block))
    else st in
  let st :=
    if negb (read st (prev_field block) =? NULL)
    then write st (next_field (read st (prev_field block)))
                  (read st (next_field block))
    else st in
  let st :=
    if block =? free_list st
    then set_free_list st (read st (next_field block))
    else st in
  let st := set_used st block in
  set_used st (get_footer_from_header st block).

(** ** Allocation *)

(** The [while (m_block != NULL)] loop of [Malloc] up to the point where a
    block is found: it only reads memory.  The result is the first block of
    the free list whose size suffices, [NULL] when the end of the list is
    reached, and [None] when the walk has not ended after [fuel] blocks. *)
Fixpoint first_fit (fuel : nat) (st : state) (size m_block : Z) : option Z :=
  match fuel with
  | O => None
  | S fuel' =>
      if m_block =? NULL then Some NULL
      else if size <=? get_size st m_block then Some m_block
      else first_fit fuel' st size (read st (next_field m_block))
  end.

(** The body of the loop for the block that was found (lines 151-164). *)
Definition Malloc_found (st : state) (m_block size : Z) : state * Z :=
  let total_size :=
    wrap64 (get_size st m_block + SIZEOF_HEADER + SIZEOF_FOOTER) in
  let size_needed := wrap64 (size + SIZEOF_U64 + SIZEOF_FOOTER) in
  let st :=
    if MINIMUM_BLOCK_SIZE <=? wrap64 (total_size - size_needed) then
      let new_block := wrap64 (m_block + SIZEOF_U64 + size + SIZEOF_FOOTER) in
      let st :=
        write st new_block
          (wrap64 (total_size - size_needed - SIZEOF_FOOTER - SIZEOF_U64)) in
      let st := add_to_free_list st new_block in
      let st := set_free st new_block in
      set_free st (get_footer_from_header st new_block)
    else st in
  let st := write st m_block size in
  let st := set_used st m_block in
  let st := set_used st (get_footer_from_header st m_block) in
  (st, data_addr m_block).

(** The loop [while (next_block + 8 + size + 8 > heap_end) if (Sbrk() == 1)
    return NULL;].  Every turn of the loop uses up one answer of the system,
    and [Sbrk] fails when none is left, so the loop is written by recursion
    on the answers that remain ([answers] is [script (os st)]).  The boolean
    is [false] when the loop left [Malloc] through [return NULL]. *)
Fixpoint grow_heap (answers : list bool) (st : state) (next_block size : Z)
  : state * bool :=
  if heap_end st <? wrap64 (next_block + SIZEOF_U64 + size + SIZEOF_FOOTER) then
    let (st', r) := Sbrk st in
    if r =? 1 then (st', false)
    else
      match answers with
      | [] => (st', false)
      | _ :: answers' => grow_heap answers' st' next_block size
      end
  else (st, true).

(** The part of [Malloc] after the loop over the free list (lines 168-181). *)
Definition Malloc_carve (st : state) (size : Z) : state * Z :=
  let next_block := next_available_block st in
  let (st, ok) := grow_heap (script (os st)) st next_block size in
  if ok then
    let st := write st next_block size in
    let st := set_used st next_block in
    let st := set_used st (get_footer_from_header st next_block) in
    let st := if first st =? NULL then set_first st next_block else st in
    let st := set_last st next_block in
    (st, data_addr next_block)
  else (st, NULL).

(** The size [Malloc] works with: clamped from below, then rounded. *)
Definition request_size (size : Z) : Z :=
  let size := if size <? MINIMUM_ALLOC_SIZE then MINIMUM_ALLOC_SIZE else size in
  round size.

(** [Malloc(size)]: the state after the call and the returned pointer, or
    [None] when the walk over the free list does not end within [fuel]
    blocks. *)
Definition Malloc (fuel : nat) (st : state) (size : Z) : option (state * Z) :=
  let st := if heap st =? NEG1 then init st else st in
  if (heap st =? NEG1) || (heap_end st =? NEG1) then Some (st, NULL)
  else
    let size := request_size size in
    match first_fit fuel st size (free_list st) with
    | None => None
    | Some m_block =>
        if m_block =? NULL then Some (Malloc_carve st size)
        else Some (Malloc_found st m_block size)
    end.

(** ** Release *)

(** The left neighbour [Free] works with: derived from the footer word that
    precedes the block, [NULL] for the block [first]. *)
Definition left_neighbour (st : state) (m_block : Z) : Z :=
  if negb (m_block =? first st)
  then get_header_from_footer st (wrap64 (m_block - SIZEOF_FOOTER))
  else NULL.

(** The right neighbour [Free] works with: the address after the block's
    footer, [NULL] for the block [last]. *)
Definition right_neighbour (st : state) (m_block : Z) : Z :=
  if negb (m_block =? last st)
  then wrap64 (m_block + SIZEOF_U64 + get_size st m_block + SIZEOF_FOOTER)
  else NULL.

(** Lines 208-212, 220-224 and 232-236: the merged size is written to the
    header and the footer of [block], which is then put on the free list. *)
Definition write_merged (st : state) (block usable_size : Z) : state :=
  let st := write st block usable_size in
  let st := set_free st block in
  let st := write st (get_footer_from_header st block) usable_size in
  let st := set_free st (get_footer_from_header st block) in
  add_to_free_list st block.

Definition Free (st : state) (p : Z) : state :=
  if p =? 0 then st
  else
    let m_block := head_addr p in
    let prev_block := left_neighbour st m_block in
    let next_block := right_neighbour st m_block in
    if negb (next_block =? NULL) && is_free st next_block
       && negb (prev_block =? NULL) && is_free st prev_block then
      let st := remove_from_free_list st next_block in
      let st := remove_from_free_list st prev_block in
      let st := if next_block =? last st then set_last st prev_block else st in
      let total_size :=
        wrap64 (get_size st prev_block + get_size st m_block
                + get_size st next_block
                + 3 * SIZEOF_U64 + 3 * SIZEOF_FOOTER) in
      let usable_size := wrap64 (total_size - SIZEOF_U64 - SIZEOF_FOOTER) in
      write_merged st prev_block usable_size
    else if negb (prev_block =? NULL) && is_free st prev_block then
      let st := remove_from_free_list st prev_block in
      let st := if m_block =? last st then set_last st prev_block else st in
      let total_size :=
        wrap64 (get_size st prev_block + get_size st m_block
                + 2 * SIZEOF_U64 + 2 * SIZEOF_FOOTER) in
      let usable_size := wrap64 (total_size - SIZEOF_U64 - SIZEOF_FOOTER) in
      write_merged st prev_block usable_size
    else if negb (next_block =? NULL) && is_free st next_block then
      let st := remove_from_free_list st next_block in
      let st := if next_block =? last st then set_last st m_block else st in
      let total_size :=
        wrap64 (get_size st m_block + get_size st next_block
                + 2 * SIZEOF_U64 + 2 * SIZEOF_FOOTER) in
      let usable_size := wrap64 (total_size - SIZEOF_U64 - SIZEOF_FOOTER) in
      write_merged st m_block usable_size
    else
      let st := set_free st m_block in
      let st := set_free st (get_footer_from_header st m_block) in
      add_to_free_list st m_block.

(** ** Callers of the two public operations *)

(** A caller's program: [CallMalloc size] allocates and records the returned
    pointer, [CallFree k] releases the [k]-th pointer recorded so far. *)
Inductive call : Type :=
| CallMalloc (size : Z)
| CallFree (k : nat).

(** Runs the calls in order; [None] when some [Malloc] does not return. *)
Fixpoint run (fuel : nat) (st : state) (ptrs : list Z) (calls : list call)
  : option (state * list Z) :=
  match calls with
  | [] => Some (st, ptrs)
  | CallMalloc size :: calls' =>
      match Malloc fuel st size with
      | None => None
      | Some (st', p) => run fuel st' (ptrs ++ [p]) calls'
      end
  | CallFree k :: calls' => run fuel (Free st (nth k ptrs NULL)) ptrs calls'
  end.

(** The pointers the calls returned. *)
Definition returned (fuel : nat) (st : state) (calls : list call)
  : option (list Z) :=
  option_map snd (run fuel st [] calls).

(** The state the calls end in ([st] itself when they do not end). *)
Definition final_state (fuel : nat) (st : state) (calls : list call) : state :=
  match run fuel st [] calls with
  | Some (st', _) => st'
  | None => st
  end.

(** The first loop of [main]: [Malloc(i << 3)] for [i = 2 .. 199]. *)
Definition main_first_loop : list call :=
  map (fun i => CallMalloc (Z.shiftl (Z.of_nat i) 3)) (seq 2 198).

(** One turn of the second loop of [main]:
    [ptr1 = Malloc(i << 3); Free(ptr1); ptr2 = Malloc(i << 3); Free(ptr2)],
    where [k] pointers were recorded before the turn. *)
Definition main_second_loop_turn (k : nat) (i : Z) : list call :=
  [CallMalloc (Z.shiftl i 3); CallFree k;
   CallMalloc (Z.shiftl i 3); CallFree (S k)].

(** ** Views of the heap *)

(** The blocks reached from [block] along the [next] links, up to [NULL]. *)
Fixpoint free_list_walk (fuel : nat) (st : state) (block : Z)
  : option (list Z) :=
  match fuel with
  | O => None
  | S fuel' =>
      if block =? NULL then Some []
      else option_map (cons block)
             (free_list_walk fuel' st (read st (next_field block)))
  end.

(** The blocks met when stepping from [block] over header, payload and
    footer until [last] is hit; [None] when a step passes [last] without
    hitting it (the blocks do not tile the heap) or [fuel] runs out. *)
Fixpoint heap_walk (fuel : nat) (st : state) (block : Z) : option (list Z) :=
  match fuel with
  | O => None
  | S fuel' =>
      if block =? last st then Some [block]
      else if last st <? block then None
      else option_map (cons block)
             (heap_walk fuel' st
                (wrap64 (block + SIZEOF_U64 + get_size st block
                         + SIZEOF_FOOTER)))
  end.

(** Blocks tile the heap from [first] through [last]. *)
Definition tiles (st : state) : Prop :=
  exists fuel blocks, heap_walk fuel st (first st) = Some blocks.

(** Some two consecutive blocks of the list are both marked free. *)
Fixpoint adjacent_free (st : state) (blocks : list Z) : bool :=
  match blocks with
  | a :: (b :: _) as rest =>
      (is_free st a && is_free st b) || adjacent_free st rest
  | _ => false
  end.

(** [round_up_8] and the size the specification promises for a request. *)
Definition round_up_8 (s : Z) : Z := 8 * ((s + 7) / 8).
Definition promised_size (s : Z) : Z := Z.max (round_up_8 s) 16.

(** ** Conditions on the system and on the free list *)

(** The system refuses the next [n] extension requests. *)
Fixpoint keeps_refusing (n : nat) (answers : list bool) : bool :=
  match n, answers with
  | O, _ => true
  | S _, [] => true
  | S n', b :: rest => negb b && keeps_refusing n' rest
  end.

(** The heap is set up, and the head of the free list is too small for a
    request of [size] bytes and is its own [next]. *)
Definition head_loops_back (st : state) (size : Z) : bool :=
  negb (heap st =? NEG1) && negb (heap_end st =? NEG1)
  && negb (free_list st =? NULL)
  && negb (request_size size <=? get_size st (free_list st))
  && (read st (next_field (free_list st)) =? free_list st).

(** The starting state used for the concrete runs below. *)
Definition fresh (answers : list bool) : state := start_state 65536 answers.

(** ** Well-formed surroundings of a block *)

(** The address just past the footer of [block]. *)
Definition block_end (st : state) (block : Z) : Z :=
  block + SIZEOF_U64 + get_size st block + SIZEOF_FOOTER.

(** The block lies inside the address space and its payload has room for
    the two links. *)
Definition block_fits (st : state) (block : Z) : bool :=
  (0 <? block) && (MINIMUM_ALLOC_SIZE <=? get_size st block)
  && (block_end st block <? two64).

Definition blocks_apart (st : state) (a b : Z) : bool :=
  (block_end st a <=? b) || (block_end st b <=? a).

(** The blocks fit and no two of them overlap. *)
Fixpoint layout_ok (st : state) (blocks : list Z) : bool :=
  match blocks with
  | [] => true
  | b :: rest =>
      block_fits st b && forallb (blocks_apart st b) rest && layout_ok st rest
  end.

(** The element after [x] in [l], [NULL] when there is none. *)
Fixpoint succ_in (l : list Z) (x : Z) : Z :=
  match l with
  | [] => NULL
  | a :: rest => if a =? x then hd NULL rest else succ_in rest x
  end.

(** The element before [x] in [l], where [pv] comes before the head of [l];
    [NULL] when [x] is not in [l]. *)
Fixpoint pred_from (pv : Z) (l : list Z) (x : Z) : Z :=
  match l with
  | [] => NULL
  | a :: rest => if a =? x then pv else pred_from a rest x
  end.

Definition pred_in (l : list Z) (x : Z) : Z := pred_from NULL l x.

(** The free list consists of the blocks [l], in this order: [free_list]
    points to the first, and the [next] and [prev] fields of each block point
    to its neighbours in [l]. *)
Definition links_ok (st : state) (l : list Z) : bool :=
  (free_list st =? hd NULL l)
  && forallb (fun b => (read st (next_field b) =? succ_in l b)
                       && (read st (prev_field b) =? pred_in l b)) l.

(** [l] without the block [x]. *)
Definition without (x : Z) (l : list Z) : list Z :=
  filter (fun y => negb (y =? x)) l.

Definition member (x : Z) (l : list Z) : bool := existsb (Z.eqb x) l.

(** The conditions above as propositions. *)
Definition Fits (st : state) (y : Z) : Prop :=
  0 < y /\ MINIMUM_ALLOC_SIZE <= get_size st y /\ block_end st y < two64.

Definition Layout (st : state) (blocks : list Z) : Prop :=
  NoDup blocks
  /\ (forall y, In y blocks -> Fits st y)
  /\ (forall y z, In y blocks -> In z blocks -> y <> z ->
        block_end st y <= z \/ block_end st z <= y).

Definition Links (st : state) (l : list Z) : Prop :=
  free_list st = hd NULL l
  /\ forall y, In y l ->
       read st (next_field y) = succ_in l y
       /\ read st (prev_field y) = pred_in l y.

(** The cell at [a] is the cell at [c] or does not overlap it. *)
Definition cell_ok (c a : Z) : Prop := a = c \/ a + 8 <= c \/ c + 8 <= a.

(** The heap bounds, [first] and the system state agree in two states. *)
Definition same_bounds (st st' : state) : Prop :=
  heap st' = heap st /\ heap_end st' = heap_end st
  /\ first st' = first st /\ os st' = os st.

(** Heaps of five blocks of 16 bytes, used to instantiate the theorems on
    release: all blocks used; the second released; the first two released
    (and merged); the fourth released as well. *)
Definition five_blocks : list call :=
  [CallMalloc 16; CallMalloc 16; CallMalloc 16; CallMalloc 16; CallMalloc 16].
Definition heap_all_used : state :=
  final_state 1 (fresh [true]) five_blocks.
Definition heap_second_free : state :=
  final_state 1 (fresh [true]) (five_blocks ++ [CallFree 1]).
Definition heap_front_free : state :=
  final_state 1 (fresh [true]) (five_blocks ++ [CallFree 1; CallFree 0]).
Definition heap_front_and_fourth_free : state :=
  final_state 1 (fresh [true])
    (five_blocks ++ [CallFree 1; CallFree 0; CallFree 3]).
(** * Properties *)

(** ** Words and memory *)

Lemma wrap64_range z : 0 <= wrap64 z < two64.
Proof. unfold wrap64, two64. apply Z.mod_pos_bound. lia. Qed.

Lemma wrap64_small z : 0 <= z < two64 -> wrap64 z = z.
Proof. unfold wrap64. intros. apply Z.mod_small. assumption. Qed.

Lemma wrap64_idem z : wrap64 (wrap64 z) = wrap64 z.
Proof. unfold wrap64, two64. apply Z.mod_mod. lia. Qed.

Lemma wrap64_sub_l a b : wrap64 (wrap64 a - b) = wrap64 (a - b).
Proof. unfold wrap64, two64. apply Zminus_mod_idemp_l. Qed.

Lemma byte_at_range m x : 0 <= byte_at m x < 256.
Proof.
  induction m as [|[a v] m IH]; simpl.
  - lia.
  - destruct (wrap64 (x - a) <? 8); [apply Z.mod_pos_bound; lia|exact IH].
Qed.

Lemma load8_range m a : 0 <= load8 m a < 256.
Proof. apply byte_at_range. Qed.

Lemma load64_range m a : 0 <= load64 m a < two64.
Proof.
  unfold load64, two64.
  pose proof (load8_range m a). pose proof (load8_range m (a + 1)).
  pose proof (load8_range m (a + 2)). pose proof (load8_range m (a + 3)).
  pose proof (load8_range m (a + 4)). pose proof (load8_range m (a + 5)).
  pose proof (load8_range m (a + 6)). pose proof (load8_range m (a + 7)).
  lia.
Qed.

Lemma load8_store64_in m a v i :
  0 <= i < 8 -> load8 (store64 m a v) (a + i) = (v / 2 ^ (8 * i)) mod 256.
Proof.
  intros Hi. unfold load8, store64. cbn [byte_at]. cbv zeta.
  rewrite wrap64_sub_l. replace (a + i - a) with i by lia.
  rewrite (wrap64_small i) by (unfold two64; lia).
  destruct (Z.ltb_spec i 8); [reflexivity|lia].
Qed.

Lemma load8_store64_out m a v b :
  8 <= wrap64 (b - a) -> load8 (store64 m a v) b = load8 m b.
Proof.
  intros Hd. unfold load8, store64. cbn [byte_at]. cbv zeta.
  rewrite wrap64_sub_l.
  destruct (Z.ltb_spec (wrap64 (b - a)) 8); [lia|reflexivity].
Qed.

Lemma bytes_of_word v :
  v mod 256
  + (v / 2 ^ 8) mod 256 * 2 ^ 8
  + (v / 2 ^ 16) mod 256 * 2 ^ 16
  + (v / 2 ^ 24) mod 256 * 2 ^ 24
  + (v / 2 ^ 32) mod 256 * 2 ^ 32
  + (v / 2 ^ 40) mod 256 * 2 ^ 40
  + (v / 2 ^ 48) mod 256 * 2 ^ 48
  + (v / 2 ^ 56) mod 256 * 2 ^ 56 = v mod two64.
Proof.
  unfold two64. change 18446744073709551616 with (2 ^ 64).
  Z.div_mod_to_equations. lia.
Qed.

(** Reading back the cell just written gives the written word. *)
Lemma load64_store64_same m a v : load64 (store64 m a v) a = wrap64 v.
Proof.
  unfold load64.
  replace (load8 (store64 m a v) a) with (load8 (store64 m a v) (a + 0))
    by (f_equal; lia).
  rewrite !load8_store64_in by lia.
  change (8 * 0) with 0. rewrite Z.pow_0_r, Z.div_1_r.
  apply bytes_of_word.
Qed.

(** Writing a cell leaves every cell that does not overlap it unchanged. *)
Lemma load64_store64_apart m a v b :
  cells_apart a b -> load64 (store64 m a v) b = load64 m b.
Proof.
  unfold cells_apart. intros [Hlo Hhi].
  assert (Hb : forall i, 0 <= i < 8 -> 8 <= wrap64 (b + i - a)).
  { intros i Hi. unfold wrap64 in *.
    replace (b + i - a) with ((b - a) + i) by lia.
    rewrite <- Zplus_mod_idemp_l.
    rewrite Z.mod_small; unfold two64 in *; lia. }
  unfold load64.
  replace (load8 (store64 m a v) b) with (load8 (store64 m a v) (b + 0))
    by (f_equal; lia).
  rewrite !load8_store64_out by (apply Hb; lia).
  replace (b + 0) with b by lia. reflexivity.
Qed.


(** ** The flag bit and the size bits *)

Lemma MASK_M2_value : MASK_M2 = two64 - 2.
Proof. reflexivity. Qed.

Lemma land_MASK_M2 w : 0 <= w < two64 -> Z.land w MASK_M2 = w - w mod 2.
Proof.
  intros Hw.
  assert (Hm : MASK_M2 = Z.shiftl (Z.ones 63) 1) by reflexivity.
  rewrite Hm. apply Z.bits_inj'. intros n Hn.
  rewrite Z.land_spec, Z.shiftl_spec by assumption.
  replace (w - w mod 2) with (Z.shiftl (Z.shiftr w 1) 1).
  2:{ rewrite Z.shiftl_mul_pow2, Z.shiftr_div_pow2 by lia.
      change (2 ^ 1) with 2. pose proof (Z.div_mod w 2 ltac:(lia)). lia. }
  rewrite Z.shiftl_spec by assumption.
  destruct (Z.eq_dec n 0) as [->|Hn0].
  - rewrite !(Z.testbit_neg_r _ (0 - 1)) by lia. apply andb_false_r.
  - rewrite Z.shiftr_spec by lia. replace (n - 1 + 1) with n by lia.
    destruct (Z.lt_ge_cases n 64) as [Hlt|Hge].
    + rewrite Z.ones_spec_low by lia. apply andb_true_r.
    + rewrite Z.ones_spec_high by lia. rewrite andb_false_r.
      symmetry. destruct (Z.eq_dec w 0) as [->|Hw0].
      * apply Z.testbit_0_l.
      * apply Z.bits_above_log2; [lia|].
        apply Z.log2_lt_pow2; [lia|].
        apply Z.lt_le_trans with (2 ^ 64); [exact (proj2 Hw)|].
        apply Z.pow_le_mono_r; lia.
Qed.

Lemma lor_1 w : 0 <= w -> Z.lor w 1 = w - w mod 2 + 1.
Proof.
  intros Hw. apply Z.bits_inj'. intros n Hn.
  rewrite Z.lor_spec.
  replace (w - w mod 2 + 1) with (2 * (w / 2) + 1)
    by (pose proof (Z.div_mod w 2 ltac:(lia)); lia).
  destruct (Z.eq_dec n 0) as [->|Hn0].
  - rewrite Z.testbit_odd_0. apply orb_true_r.
  - replace n with (Z.succ (n - 1)) by lia.
    rewrite Z.testbit_odd_succ by lia.
    rewrite <- !Z.div2_bits by lia.
    change (Z.div2 1) with 0. rewrite Z.testbit_0_l, orb_false_r.
    reflexivity.
Qed.

Lemma land_1 w : 0 <= w -> Z.land w 1 = w mod 2.
Proof. intros Hw. change 1 with (Z.ones 1). apply Z.land_ones. lia. Qed.

Lemma read_range st a : 0 <= read st a < two64.
Proof. apply load64_range. Qed.

Lemma get_size_eq st b : get_size st b = read st b - read st b mod 2.
Proof. unfold get_size. apply land_MASK_M2, read_range. Qed.

Lemma get_size_even st b : get_size st b mod 2 = 0.
Proof.
  rewrite get_size_eq.
  replace (read st b - read st b mod 2) with (read st b / 2 * 2)
    by (pose proof (Z.div_mod (read st b) 2 ltac:(lia)); lia).
  apply Z.mod_mul. lia.
Qed.

Lemma get_size_range st b : 0 <= get_size st b < two64.
Proof.
  rewrite get_size_eq. pose proof (read_range st b).
  Z.div_mod_to_equations. lia.
Qed.

Lemma is_free_eq st b : is_free st b = (read st b mod 2 =? 1).
Proof. unfold is_free. rewrite land_1 by apply read_range. reflexivity. Qed.

(** ** Reading after writing *)

Lemma read_write_same st a v : read (write st a v) a = wrap64 v.
Proof. apply load64_store64_same. Qed.

Lemma read_write_apart st a v b :
  cells_apart a b -> read (write st a v) b = read st b.
Proof. apply load64_store64_apart. Qed.

Lemma cells_apart_intro a b :
  0 <= a <= two64 - 8 -> 0 <= b <= two64 - 8 ->
  a + 8 <= b \/ b + 8 <= a ->
  cells_apart a b.
Proof.
  unfold cells_apart, wrap64, two64. intros Ha Hb [H|H].
  - rewrite Z.mod_small; lia.
  - replace (b - a) with ((b - a + 18446744073709551616)
                          + (-1) * 18446744073709551616) by lia.
    rewrite Z.mod_add by lia. rewrite Z.mod_small; lia.
Qed.

(** ** Which variables an operation leaves alone *)

(** The variables other than [mem] and [free_list] agree in two states. *)
Definition same_markers (st st' : state) : Prop :=
  heap st' = heap st /\ heap_end st' = heap_end st
  /\ last st' = last st /\ first st' = first st /\ os st' = os st.

Lemma same_markers_refl st : same_markers st st.
Proof. repeat split. Qed.

Lemma same_markers_trans st1 st2 st3 :
  same_markers st1 st2 -> same_markers st2 st3 -> same_markers st1 st3.
Proof.
  unfold same_markers. intros (?&?&?&?&?) (?&?&?&?&?).
  repeat split; congruence.
Qed.

Lemma write_markers st a v : same_markers st (write st a v).
Proof. repeat split. Qed.

Lemma set_free_list_markers st v : same_markers st (set_free_list st v).
Proof. repeat split. Qed.

Lemma set_free_markers st b : same_markers st (set_free st b).
Proof. repeat split. Qed.

Lemma set_used_markers st b : same_markers st (set_used st b).
Proof. repeat split. Qed.

(** Peels the outermost operation off the state on the right. *)
Ltac markers_step :=
  lazymatch goal with
  | |- same_markers ?s ?s => apply same_markers_refl
  | |- same_markers _ (if ?c then _ else _) => destruct c
  | |- same_markers _ (write _ _ _) =>
      eapply same_markers_trans; [|apply write_markers]
  | |- same_markers _ (set_free_list _ _) =>
      eapply same_markers_trans; [|apply set_free_list_markers]
  | |- same_markers _ (set_free _ _) =>
      eapply same_markers_trans; [|apply set_free_markers]
  | |- same_markers _ (set_used _ _) =>
      eapply same_markers_trans; [|apply set_used_markers]
  end.

Lemma add_to_free_list_markers st b : same_markers st (add_to_free_list st b).
Proof. unfold add_to_free_list. cbv zeta. repeat markers_step. Qed.

Lemma remove_from_free_list_markers st b :
  same_markers st (remove_from_free_list st b).
Proof. unfold remove_from_free_list. cbv zeta. repeat markers_step. Qed.

Lemma Malloc_found_markers st m_block size :
  same_markers st (fst (Malloc_found st m_block size)).
Proof.
  unfold Malloc_found. cbv zeta. cbn [fst].
  do 3 markers_step. markers_step.
  - do 2 markers_step.
    eapply same_markers_trans; [|apply add_to_free_list_markers].
    markers_step. apply same_markers_refl.
  - apply same_markers_refl.
Qed.

Lemma Malloc_found_pointer st m_block size :
  snd (Malloc_found st m_block size) = data_addr m_block.
Proof. reflexivity. Qed.

(** Growing the heap changes [heap_end] and the system state only. *)
Lemma grow_heap_frame answers : forall st next_block size,
  let st' := fst (grow_heap answers st next_block size) in
  mem st' = mem st /\ heap st' = heap st /\ last st' = last st
  /\ first st' = first st /\ free_list st' = free_list st.
Proof.
  induction answers as [|b answers IH]; intros st next_block size; cbv zeta;
    cbn [grow_heap];
    (destruct (heap_end st <? _); [|cbn [fst]; repeat split]);
    unfold Sbrk; destruct (sbrk (os st) ALLOC_SIZE) as [o r];
    destruct (negb (r =? NEG1)); cbn [Z.eqb fst]; try (repeat split; fail).
  specialize (IH (set_heap_end (set_os st o) (wrap64 (heap_end st + ALLOC_SIZE)))
                 next_block size).
  cbv zeta in IH. exact IH.
Qed.

(** ** Global variables are untouched by memory writes *)

Lemma first_fit_more_fuel fuel st size m r :
  first_fit fuel st size m = Some r ->
  forall fuel', (fuel <= fuel')%nat -> first_fit fuel' st size m = Some r.
Proof.
  revert m. induction fuel as [|fuel IH]; intros m H fuel' Hle.
  - discriminate.
  - destruct fuel' as [|fuel']; [lia|].
    simpl in *.
    destruct (m =? NULL); [assumption|].
    destruct (size <=? get_size st m); [assumption|].
    apply IH; [assumption|lia].
Qed.

(** A free list whose too-small head is its own successor is never left by
    the search. *)
Lemma first_fit_self_loop fuel st size m :
  (m =? NULL) = false ->
  (size <=? get_size st m) = false ->
  read st (next_field m) = m ->
  first_fit fuel st size m = None.
Proof.
  intros Hnull Hsmall Hloop.
  induction fuel as [|fuel IH]; simpl.
  - reflexivity.
  - rewrite Hnull, Hsmall, Hloop. exact IH.
Qed.

Lemma Malloc_self_loop st size :
  head_loops_back st size = true -> forall fuel, Malloc fuel st size = None.
Proof.
  unfold head_loops_back. intros H fuel.
  apply andb_prop in H. destruct H as [H Hloop].
  apply andb_prop in H. destruct H as [H Hsmall].
  apply andb_prop in H. destruct H as [H Hnull].
  apply andb_prop in H. destruct H as [Hheap Hend].
  apply negb_true_iff in Hheap, Hend, Hnull, Hsmall.
  apply Z.eqb_eq in Hloop.
  unfold Malloc. rewrite Hheap. cbv iota zeta.
  rewrite Hheap, Hend. cbv [orb].
  rewrite first_fit_self_loop; auto.
Qed.

(** ** The two public operations on concrete heaps *)

Ltac split_all := repeat match goal with |- _ /\ _ => split end.
Ltac by_evaluation :=
  cbv zeta; split_all;
  try match goal with |- _ = _ => vm_compute; reflexivity end.

(** C8: [Free] applied to the null pointer returns the state it was given:
    heap bounds, [first], [last], the head of the free list and all of memory
    (hence all block metadata) are as before. *)
Theorem Free_null_is_noop : forall st : state, Free st NULL = st.
Proof. intros st. reflexivity. Qed.

(** C1 (fails on the code): a block of usable size 48 followed by a used
    block is released and a request for 16 bytes splits it.  The remainder is
    carved right after the shrunk block (at 65536 + 8 + 16 + 8) and put on the
    free list, but its usable size is 48 - 16 = 32, not 48 - 16 - 16 = 16, so
    it reaches into the following block and the blocks no longer tile the
    heap. *)
Theorem split_remainder_overruns :
  let calls := [CallMalloc 48; CallMalloc 16; CallFree 0] in
  let before := final_state 2 (fresh [true]) calls in
  let after := final_state 2 (fresh [true]) (calls ++ [CallMalloc 16]) in
  returned 2 (fresh [true]) (calls ++ [CallMalloc 16])
    = Some [65544; 65608; 65544]
  /\ get_size before 65536 = 48
  /\ free_list_walk 3 before (free_list before) = Some [65536]
  /\ get_size after 65536 = 16
  /\ free_list after = 65568
  /\ is_free after 65568 = true
  /\ get_size after 65568 = 32
  /\ (first after, last after) = (65536, 65600)
  /\ ~ tiles after.
Proof.
  by_evaluation.
  intros [fuel [blocks H]].
  destruct fuel as [|[|[|fuel]]]; vm_compute in H; discriminate H.
Qed.

(** C2 (fails on the code): first, a free block of usable size 24 serves a
    request for 16 bytes; the leftover is too small, no block is split off,
    and yet the header of the block is shrunk from 24 to 16.  Second, a free
    block of usable size 32 serves a request for 16 bytes; the leftover
    capacity is (32 + 16) - (16 + 16) = 16 bytes, below the minimum block size
    of 32, and yet a block is split off. *)
Theorem unsplit_block_is_shrunk :
  let calls := [CallMalloc 24; CallFree 0] in
  let before := final_state 2 (fresh [true]) calls in
  let after := final_state 2 (fresh [true]) (calls ++ [CallMalloc 16]) in
  let calls' := [CallMalloc 32; CallFree 0] in
  let before' := final_state 2 (fresh [true]) calls' in
  let after' := final_state 2 (fresh [true]) (calls' ++ [CallMalloc 16]) in
  (get_size before 65536 = 24
   /\ returned 2 (fresh [true]) (calls ++ [CallMalloc 16]) = Some [65544; 65544]
   /\ free_list_walk 3 after (free_list after) = Some [65536]
   /\ get_size after 65536 = 16)
  /\ (get_size before' 65536 = 32
      /\ MINIMUM_BLOCK_SIZE = 32
      /\ returned 2 (fresh [true]) (calls' ++ [CallMalloc 16])
         = Some [65544; 65544]
      /\ free_list_walk 3 after' (free_list after') = Some [65568; 65536]
      /\ get_size after' 65568 = 16).
Proof. by_evaluation. Qed.

(** C3 (fails on the code): a block taken from the free list by [Malloc] is
    handed to the caller marked used and is still the head of the free
    list. *)
Theorem allocated_block_stays_linked :
  let calls := [CallMalloc 16; CallFree 0; CallMalloc 16] in
  let after := final_state 2 (fresh [true]) calls in
  returned 2 (fresh [true]) calls = Some [65544; 65544]
  /\ head_addr 65544 = 65536
  /\ is_free after 65536 = false
  /\ free_list_walk 3 after (free_list after) = Some [65536].
Proof. by_evaluation. Qed.

(** C4 (fails on the code): a request for [2^32] bytes succeeds and is backed
    by a block of usable size 0, where [max(round_up_8(s), 16)] is [2^32]:
    [round] returns [unsigned int]. *)
Theorem Malloc_truncates_large_request :
  let calls := [CallMalloc 4294967296] in
  let after := final_state 1 (fresh [true]) calls in
  returned 1 (fresh [true]) calls = Some [65544]
  /\ get_size after (head_addr 65544) = 0
  /\ promised_size 4294967296 = 4294967296.
Proof. by_evaluation. Qed.

(** C6 (fails on the code): three blocks are allocated and the first two are
    released in order.  The footer of the first block was never given the
    block's size, so releasing the second block does not find its free left
    neighbour, and the walk from [first] to [last] meets two consecutive free
    blocks. *)
Theorem release_leaves_adjacent_free :
  let calls :=
    [CallMalloc 16; CallMalloc 16; CallMalloc 16; CallFree 0; CallFree 1] in
  let after := final_state 1 (fresh [true]) calls in
  returned 1 (fresh [true]) calls = Some [65544; 65576; 65608]
  /\ heap_walk 3 after (first after) = Some [65536; 65568; 65600]
  /\ is_free after 65536 = true
  /\ is_free after 65568 = true
  /\ adjacent_free after [65536; 65568; 65600] = true.
Proof. by_evaluation. Qed.

(** C9 (fails on the code): [main] is run from the start of the program.
    After the first loop, the turn [i = 2] of the second loop returns the same
    pointer twice; the block is then on the free list as its own successor,
    and the call [Malloc(3 << 3)] that opens the turn [i = 3] never
    returns. *)
Theorem main_second_loop_hangs :
  let st0 := fresh (repeat true 200) in
  let calls := main_first_loop ++ main_second_loop_turn 198 2 in
  option_map (fun ps => (length ps, nth 198 ps 0 =? nth 199 ps 0))
    (returned 1 st0 calls) = Some (200%nat, true)
  /\ forall fuel, Malloc fuel (final_state 1 st0 calls) (Z.shiftl 3 3) = None.
Proof.
  cbv zeta. split.
  - vm_compute. reflexivity.
  - apply Malloc_self_loop. vm_compute. reflexivity.
Qed.

(** ** Bootstrap *)

(** C7 (as stated, fails on the code): the system refuses the extension
    request of the bootstrap and grants the next one.  The first [Malloc]
    fails, the second one sets the heap up and returns a block. *)
Lemma bootstrap_is_retried :
  returned 1 (fresh [false; true]) [CallMalloc 16; CallMalloc 16]
  = Some [NULL; 65544].
Proof. vm_compute. reflexivity. Qed.

(** A refused bootstrap.  [Malloc] runs [init], which asks the system for the
    initial heap: one scripted answer is used up and the break stays.  The
    call returns [NULL] with [heap] and [heap_end] at [-1], which is also
    their value before any bootstrap; memory, [first], [last] and
    [free_list] are not touched. *)
Lemma Malloc_refused fuel st size :
  heap st = NEG1 ->
  keeps_refusing 1 (script (os st)) = true ->
  exists st',
    Malloc fuel st size = Some (st', NULL)
    /\ heap st' = NEG1
    /\ heap_end st' = NEG1
    /\ mem st' = mem st
    /\ first st' = first st
    /\ last st' = last st
    /\ free_list st' = free_list st
    /\ brk (os st') = brk (os st)
    /\ script (os st') = tl (script (os st)).
Proof.
  intros Hheap Href. unfold Malloc, init. rewrite Hheap.
  change (NEG1 =? NEG1) with true. cbv iota.
  unfold sbrk. change (0 =? 0) with true. cbv iota.
  change (INIIAL_HEAP_SIZE =? 0) with false. cbv iota.
  destruct (script (os st)) as [|[|] rest] eqn:Hs; cbn in Href;
    try discriminate Href;
    change (NEG1 =? NEG1) with true; cbv iota;
    eexists; (split; [reflexivity|]); cbn; rewrite ?Hs;
    repeat match goal with |- _ /\ _ => split end; reflexivity.
Qed.

Lemma keeps_refusing_head n answers :
  keeps_refusing (S n) answers = true ->
  keeps_refusing 1 answers = true
  /\ keeps_refusing n (tl answers) = true.
Proof.
  destruct answers as [|b rest]; cbn.
  - intros _. split; [reflexivity|]. destruct n; reflexivity.
  - intros H. apply andb_prop in H. destruct H as [Hb Hr].
    rewrite Hb. split; [reflexivity|exact Hr].
Qed.

Lemma skipn_tl {A : Type} n (l : list A) : skipn n (tl l) = skipn (S n) l.
Proof. destruct l as [|a l]; [destruct n|]; reflexivity. Qed.

Lemma run_refused sizes : forall fuel st ptrs,
  heap st = NEG1 ->
  keeps_refusing (length sizes) (script (os st)) = true ->
  exists st',
    run fuel st ptrs (map CallMalloc sizes)
    = Some (st', ptrs ++ repeat NULL (length sizes))
    /\ heap st' = NEG1
    /\ heap_end st' = match sizes with [] => heap_end st | _ :: _ => NEG1 end
    /\ mem st' = mem st
    /\ first st' = first st
    /\ last st' = last st
    /\ free_list st' = free_list st
    /\ brk (os st') = brk (os st)
    /\ script (os st') = skipn (length sizes) (script (os st)).
Proof.
  induction sizes as [|size sizes IH]; intros fuel st ptrs Hheap Href.
  - exists st. cbn. rewrite app_nil_r.
    repeat match goal with |- _ /\ _ => split end;
      first [assumption|reflexivity].
  - destruct (keeps_refusing_head _ _ Href) as [Hone Htl].
    destruct (Malloc_refused fuel st size Hheap Hone)
      as (st1 & HM & Hh1 & He1 & Hm1 & Hf1 & Hl1 & Hfl1 & Hb1 & Hs1).
    rewrite <- Hs1 in Htl.
    destruct (IH fuel st1 (ptrs ++ [NULL]) Hh1 Htl)
      as (st' & Hrun & Hh' & He' & Hm' & Hf' & Hl' & Hfl' & Hb' & Hs').
    exists st'. cbn [map run length repeat]. rewrite HM, Hrun.
    rewrite <- app_assoc.
    repeat match goal with |- _ /\ _ => split end;
      try reflexivity; try congruence.
    + rewrite He'. destruct sizes; [exact He1|reflexivity].
    + rewrite Hs', Hs1. apply skipn_tl.
Qed.

(** C7 (amended): when the system refuses the extension request of the
    bootstrap, the call fails and the allocator is left as before the
    bootstrap, so the next call tries the bootstrap again.  As long as the
    system keeps refusing, every [Malloc] returns [NULL]; every one of these
    calls has asked the system once (after [n] calls [n] scripted answers
    are used up, and the break has not moved); [heap] and [heap_end] hold
    [-1]; memory, [first], [last] and [free_list] are what they were before
    the first call. *)
Theorem Malloc_fails_while_refused :
  forall (sizes : list Z) (fuel : nat) (st : state),
    heap st = NEG1 ->
    keeps_refusing (length sizes) (script (os st)) = true ->
    let st' := final_state fuel st (map CallMalloc sizes) in
    returned fuel st (map CallMalloc sizes)
    = Some (repeat NULL (length sizes))
    /\ heap st' = NEG1
    /\ heap_end st' = match sizes with [] => heap_end st | _ :: _ => NEG1 end
    /\ mem st' = mem st
    /\ first st' = first st
    /\ last st' = last st
    /\ free_list st' = free_list st
    /\ brk (os st') = brk (os st)
    /\ script (os st') = skipn (length sizes) (script (os st)).
Proof.
  intros sizes fuel st Hheap Href.
  destruct (run_refused sizes fuel st [] Hheap Href) as (st' & Hrun & Hrest).
  unfold returned, final_state. rewrite Hrun. cbn.
  split; [reflexivity|exact Hrest].
Qed.

Lemma Malloc_fails_while_refused_witness :
  heap (fresh [false; false; true]) = NEG1
  /\ keeps_refusing 2 (script (os (fresh [false; false; true]))) = true
  /\ returned 1 (fresh [false; false; true]) (map CallMalloc [16; 4096])
     = Some [NULL; NULL]
  /\ heap (final_state 1 (fresh [false; false; true])
             (map CallMalloc [16; 4096])) = NEG1
  /\ heap_end (final_state 1 (fresh [false; false; true])
                 (map CallMalloc [16; 4096])) = NEG1
  /\ mem (final_state 1 (fresh [false; false; true])
            (map CallMalloc [16; 4096])) = zero_memory
  /\ first (final_state 1 (fresh [false; false; true])
              (map CallMalloc [16; 4096])) = NULL
  /\ last (final_state 1 (fresh [false; false; true])
             (map CallMalloc [16; 4096])) = NULL
  /\ free_list (final_state 1 (fresh [false; false; true])
                  (map CallMalloc [16; 4096])) = NULL
  /\ brk (os (final_state 1 (fresh [false; false; true])
                (map CallMalloc [16; 4096]))) = 65536
  /\ script (os (final_state 1 (fresh [false; false; true])
                   (map CallMalloc [16; 4096]))) = [true].
Proof.
  split; [reflexivity|]. split; [reflexivity|].
  apply (Malloc_fails_while_refused [16; 4096] 1 (fresh [false; false; true]));
    reflexivity.
Defined.

(** ** The markers [first] and [last] *)

(** C10: when the search of the free list finds a block, [Malloc] returns its
    payload and leaves [first], [last], [heap] and [heap_end] as they were.
    When it finds none, [heap] stays; if the heap could be grown far enough,
    the block is carved at the next available address, [last] is set to it,
    and [first] is set to it only when no block had been carved before; if the
    heap could not be grown, [first] and [last] stay. *)
Theorem Malloc_sets_markers_only_when_carving :
  forall (fuel : nat) (st : state) (size m_block : Z),
    heap st <> NEG1 ->
    heap_end st <> NEG1 ->
    first_fit fuel st (request_size size) (free_list st) = Some m_block ->
    exists st' p,
      Malloc fuel st size = Some (st', p)
      /\ (m_block <> NULL ->
          p = data_addr m_block
          /\ first st' = first st /\ last st' = last st
          /\ heap st' = heap st /\ heap_end st' = heap_end st)
      /\ (m_block = NULL ->
          heap st' = heap st
          /\ (snd (grow_heap (script (os st)) st (next_available_block st)
                     (request_size size)) = true ->
              p = data_addr (next_available_block st)
              /\ last st' = next_available_block st
              /\ first st' = (if first st =? NULL
                              then next_available_block st else first st))
          /\ (snd (grow_heap (script (os st)) st (next_available_block st)
                     (request_size size)) = false ->
              p = NULL /\ last st' = last st /\ first st' = first st)).
Proof.
  intros fuel st size m_block Hheap Hend Hfit.
  apply Z.eqb_neq in Hheap, Hend.
  unfold Malloc. rewrite Hheap. cbv iota zeta. rewrite Hheap, Hend.
  cbv [orb]. rewrite Hfit.
  destruct (Z.eqb_spec m_block NULL) as [Hnull|Hnull].
  - exists (fst (Malloc_carve st (request_size size))),
           (snd (Malloc_carve st (request_size size))).
    split; [rewrite <- surjective_pairing; reflexivity|].
    split; [intros Hc; contradiction|]. intros _.
    unfold Malloc_carve. cbv zeta.
    pose proof (grow_heap_frame (script (os st)) st (next_available_block st)
                  (request_size size)) as Hframe.
    cbv zeta in Hframe.
    destruct (grow_heap (script (os st)) st (next_available_block st)
                (request_size size)) as [st1 ok].
    cbn [fst snd] in *. destruct Hframe as (Hm & Hh & Hl & Hf & Hfl).
    destruct ok; cbn [fst snd].
    + split.
      { destruct (first _ =? NULL); cbn; exact Hh. }
      split; [|intros Hc; discriminate Hc]. intros _.
      split; [reflexivity|]. split; [reflexivity|].
      match goal with
      | |- first (set_last (if first ?S =? NULL then _ else _) _) = _ =>
          change (first S) with (first st1)
      end.
      rewrite Hf. destruct (first st =? NULL); [reflexivity|exact Hf].
    + split; [exact Hh|]. split; [intros Hc; discriminate Hc|]. intros _.
      split; [reflexivity|]. split; assumption.
  - exists (fst (Malloc_found st m_block (request_size size))),
           (snd (Malloc_found st m_block (request_size size))).
    split; [rewrite <- surjective_pairing; reflexivity|].
    split; [|intros Hc; contradiction]. intros _.
    destruct (Malloc_found_markers st m_block (request_size size))
      as (Hh & He & Hl & Hf & _).
    split; [apply Malloc_found_pointer|]. repeat split; assumption.
Qed.

Lemma Malloc_sets_markers_only_when_carving_witness :
  let st := final_state 1 (fresh [true]) [CallMalloc 48; CallFree 0] in
  heap st <> NEG1
  /\ heap_end st <> NEG1
  /\ first_fit 1 st (request_size 16) (free_list st) = Some 65536
  /\ exists st' p,
      Malloc 1 st 16 = Some (st', p)
      /\ (65536 <> NULL ->
          p = data_addr 65536
          /\ first st' = first st /\ last st' = last st
          /\ heap st' = heap st /\ heap_end st' = heap_end st)
      /\ (65536 = NULL ->
          heap st' = heap st
          /\ (snd (grow_heap (script (os st)) st (next_available_block st)
                     (request_size 16)) = true ->
              p = data_addr (next_available_block st)
              /\ last st' = next_available_block st
              /\ first st' = (if first st =? NULL
                              then next_available_block st else first st))
          /\ (snd (grow_heap (script (os st)) st (next_available_block st)
                     (request_size 16)) = false ->
              p = NULL /\ last st' = last st /\ first st' = first st)).
Proof.
  cbv zeta.
  split; [vm_compute; discriminate|].
  split; [vm_compute; discriminate|].
  split; [vm_compute; reflexivity|].
  apply (Malloc_sets_markers_only_when_carving 1
           (final_state 1 (fresh [true]) [CallMalloc 48; CallFree 0]) 16 65536).
  - vm_compute. discriminate.
  - vm_compute. discriminate.
  - vm_compute. reflexivity.
Defined.

(** ** Neighbours in a list without repetitions *)

Lemma in_without x y l : In y (without x l) <-> In y l /\ y <> x.
Proof.
  unfold without. rewrite filter_In, negb_true_iff, Z.eqb_neq. reflexivity.
Qed.

Lemma without_notin x l : ~ In x l -> without x l = l.
Proof.
  induction l as [|a l IH]; intros Hx; [reflexivity|].
  cbn. destruct (Z.eqb_spec a x) as [->|Hne].
  - exfalso. apply Hx. left. reflexivity.
  - cbn. f_equal. apply IH. intros H. apply Hx. right. exact H.
Qed.

Lemma NoDup_without x l : NoDup l -> NoDup (without x l).
Proof. apply NoDup_filter. Qed.

Lemma succ_in_cases l x : succ_in l x = NULL \/ In (succ_in l x) l.
Proof.
  induction l as [|a l IH]; [left; reflexivity|].
  cbn. destruct (a =? x).
  - destruct l as [|b l]; [left; reflexivity|right; right; left; reflexivity].
  - destruct IH as [IH|IH]; [left|right; right]; exact IH.
Qed.

Lemma pred_from_cases l : forall pv x,
  pred_from pv l x = NULL \/ pred_from pv l x = pv \/ In (pred_from pv l x) l.
Proof.
  induction l as [|a l IH]; intros pv x; [left; reflexivity|].
  cbn. destruct (a =? x); [right; left; reflexivity|].
  destruct (IH a x) as [H|[H|H]].
  - left. exact H.
  - right. right. left. symmetry. exact H.
  - right. right. right. exact H.
Qed.

Lemma pred_in_cases l x : pred_in l x = NULL \/ In (pred_in l x) l.
Proof.
  destruct (pred_from_cases l NULL x) as [H|[H|H]]; [left|left|right]; exact H.
Qed.

Lemma succ_in_notin l x : ~ In x l -> succ_in l x = NULL.
Proof.
  induction l as [|a l IH]; intros Hx; [reflexivity|].
  cbn. destruct (Z.eqb_spec a x) as [->|Hne].
  - exfalso. apply Hx. left. reflexivity.
  - apply IH. intros H. apply Hx. right. exact H.
Qed.

Lemma pred_from_notin l : forall pv x, ~ In x l -> pred_from pv l x = NULL.
Proof.
  induction l as [|a l IH]; intros pv x Hx; [reflexivity|].
  cbn. destruct (Z.eqb_spec a x) as [->|Hne].
  - exfalso. apply Hx. left. reflexivity.
  - apply IH. intros H. apply Hx. right. exact H.
Qed.

(** What comes before [x] depends on [pv] only when [x] is the head. *)
Lemma pred_from_head l pv x :
  pred_from pv l x = if hd NULL l =? x
                     then (match l with [] => NULL | _ => pv end)
                     else pred_in l x.
Proof.
  destruct l as [|a l]; cbn [pred_from pred_in hd].
  - destruct (NULL =? x); reflexivity.
  - unfold pred_in. cbn [pred_from]. destruct (a =? x); reflexivity.
Qed.

Lemma succ_in_neq l x :
  NoDup l -> ~ In NULL l -> In x l -> succ_in l x <> x.
Proof.
  induction l as [|a l IH]; intros Hnd Hnn Hx Heq; [contradiction|].
  apply NoDup_cons_iff in Hnd as [Hna Hnd'].
  cbn in Heq. destruct (Z.eqb_spec a x) as [->|Hne].
  - destruct l as [|b l]; cbn in Heq.
    + apply Hnn. left. symmetry. exact Heq.
    + apply Hna. left. exact Heq.
  - destruct Hx as [Hx|Hx]; [contradiction|].
    apply IH; auto. intros H. apply Hnn. right. exact H.
Qed.

Lemma pred_from_neq l : forall pv x,
  NoDup l -> pv <> x -> x <> NULL -> pred_from pv l x <> x.
Proof.
  induction l as [|a l IH]; intros pv x Hnd Hpv Hx; cbn.
  - intros H. apply Hx. symmetry. exact H.
  - apply NoDup_cons_iff in Hnd as [_ Hnd].
    destruct (Z.eqb_spec a x) as [->|Hne]; [exact Hpv|].
    apply IH; assumption.
Qed.

(** [y] comes after [x] exactly when [x] comes before [y]. *)
Lemma succ_pred_dual l : forall pv x y,
  NoDup l -> ~ In NULL l -> ~ In pv l -> In x l -> In y l ->
  (succ_in l x = y <-> pred_from pv l y = x).
Proof.
  induction l as [|a l IH]; intros pv x y Hnd Hnn Hpv Hx Hy; [contradiction|].
  apply NoDup_cons_iff in Hnd as [Hna Hnd'].
  assert (Hnn' : ~ In NULL l) by (intros H; apply Hnn; right; exact H).
  assert (Ha0 : a <> NULL) by (intros H; apply Hnn; left; exact H).
  cbn [succ_in pred_from].
  destruct (Z.eqb_spec a x) as [Hax|Hax]; destruct (Z.eqb_spec a y) as [Hay|Hay].
  - (* x and y are both the head *)
    subst x y. split; intros H; exfalso.
    + destruct l as [|b l]; cbn in H; [apply Ha0; symmetry; exact H|].
      apply Hna. left. exact H.
    + apply Hpv. left. symmetry. exact H.
  - (* x is the head, y is in the tail *)
    subst x. destruct Hy as [Hy|Hy]; [contradiction|].
    destruct l as [|b l]; [contradiction|].
    cbn [hd pred_from].
    destruct (Z.eqb_spec b y) as [Hby|Hby]; [tauto|].
    split; intros H; [contradiction|].
    exfalso.
    destruct (pred_from_cases l b y) as [H0|[H0|H0]].
    + apply Ha0. rewrite <- H. exact H0.
    + apply Hna. left. rewrite <- H. symmetry. exact H0.
    + apply Hna. right. rewrite <- H. exact H0.
  - (* y is the head, x is in the tail *)
    subst y. destruct Hx as [Hx|Hx]; [contradiction|].
    split; intros H; exfalso.
    + destruct (succ_in_cases l x) as [H0|H0].
      * apply Ha0. rewrite <- H. exact H0.
      * apply Hna. rewrite <- H. exact H0.
    + apply Hpv. right. rewrite H. exact Hx.
  - destruct Hx as [Hx|Hx]; [contradiction|].
    destruct Hy as [Hy|Hy]; [contradiction|].
    apply IH; assumption.
Qed.

Lemma hd_without l x :
  NoDup l ->
  hd NULL (without x l) = if hd NULL l =? x then succ_in l x else hd NULL l.
Proof.
  intros Hnd. destruct l as [|a l]; cbn [without filter hd succ_in].
  - destruct (NULL =? x); reflexivity.
  - apply NoDup_cons_iff in Hnd as [Hna _].
    destruct (Z.eqb_spec a x) as [->|Hne]; cbn [negb hd]; [|reflexivity].
    fold (without x l). rewrite without_notin by assumption. reflexivity.
Qed.

Lemma succ_without l x : forall y,
  NoDup l -> ~ In NULL l -> x <> NULL -> y <> x ->
  succ_in (without x l) y
  = if succ_in l y =? x then succ_in l x else succ_in l y.
Proof.
  induction l as [|a l IH]; intros y Hnd Hnn Hx Hyx.
  - cbn [without filter succ_in pred_from].
    destruct (Z.eqb_spec NULL x); [congruence|reflexivity].
  - apply NoDup_cons_iff in Hnd as [Hna Hnd'].
    assert (Hnn' : ~ In NULL l) by (intros H; apply Hnn; right; exact H).
    cbn [without filter succ_in]. fold (without x l).
    destruct (Z.eqb_spec a x) as [->|Hax]; cbn [negb].
    + rewrite without_notin by assumption.
      destruct (Z.eqb_spec x y) as [Heq|_]; [congruence|].
      destruct (Z.eqb_spec (succ_in l y) x) as [Heq|_]; [|reflexivity].
      exfalso. destruct (succ_in_cases l y) as [H0|H0].
      * apply Hx. rewrite <- Heq. exact H0.
      * apply Hna. rewrite <- Heq. exact H0.
    + cbn [succ_in]. destruct (Z.eqb_spec a y) as [->|Hay].
      * rewrite hd_without by assumption.
        destruct (hd NULL l =? x); reflexivity.
      * apply IH; assumption.
Qed.

Lemma pred_without l x : forall pv y,
  NoDup l -> ~ In NULL l -> x <> NULL -> pv <> x -> y <> x ->
  pred_from pv (without x l) y
  = if pred_from pv l y =? x then pred_from pv l x else pred_from pv l y.
Proof.
  induction l as [|a l IH]; intros pv y Hnd Hnn Hx Hpv Hyx.
  - cbn [without filter succ_in pred_from].
    destruct (Z.eqb_spec NULL x); [congruence|reflexivity].
  - apply NoDup_cons_iff in Hnd as [Hna Hnd'].
    assert (Hnn' : ~ In NULL l) by (intros H; apply Hnn; right; exact H).
    cbn [without filter pred_from]. fold (without x l).
    destruct (Z.eqb_spec a x) as [->|Hax]; cbn [negb].
    + rewrite without_notin by assumption.
      destruct (Z.eqb_spec x y) as [Heq|_]; [congruence|].
      destruct (Z.eqb_spec x x) as [_|Hc]; [|contradiction].
      destruct l as [|b l].
      * cbn [pred_from].
        destruct (Z.eqb_spec NULL x); [congruence|reflexivity].
      * rewrite (pred_from_head (b :: l) pv y), (pred_from_head (b :: l) x y).
        cbn [hd].
        destruct (Z.eqb_spec b y) as [->|Hby].
        -- destruct (Z.eqb_spec x x); [reflexivity|contradiction].
        -- destruct (Z.eqb_spec (pred_in (b :: l) y) x) as [Heq|_];
             [|reflexivity].
           exfalso. destruct (pred_in_cases (b :: l) y) as [H0|H0].
           ++ apply Hx. rewrite <- Heq. exact H0.
           ++ apply Hna. rewrite <- Heq. exact H0.
    + cbn [pred_from]. destruct (Z.eqb_spec a y) as [->|Hay].
      * destruct (Z.eqb_spec pv x); [congruence|reflexivity].
      * apply IH; assumption.
Qed.

(** ** From the checks to propositions *)

Lemma block_fits_Fits st y : block_fits st y = true -> Fits st y.
Proof.
  unfold block_fits, Fits. intros H.
  apply andb_prop in H. destruct H as [H H3].
  apply andb_prop in H. destruct H as [H1 H2].
  apply Z.ltb_lt in H1, H3. apply Z.leb_le in H2. auto.
Qed.

Lemma Fits_end st y : Fits st y -> y < block_end st y.
Proof.
  unfold Fits, block_end, SIZEOF_U64, SIZEOF_FOOTER, MINIMUM_ALLOC_SIZE. lia.
Qed.

Lemma layout_ok_Layout st blocks : layout_ok st blocks = true -> Layout st blocks.
Proof.
  induction blocks as [|b rest IH]; intros H.
  - split; [constructor|]. split; intros; contradiction.
  - cbn [layout_ok] in H.
    apply andb_prop in H. destruct H as [H Hrest].
    apply andb_prop in H. destruct H as [Hb Hap].
    apply block_fits_Fits in Hb.
    destruct (IH Hrest) as (Hnd & Hfit & Hdis).
    rewrite forallb_forall in Hap.
    assert (Hapart : forall z, In z rest ->
              block_end st b <= z \/ block_end st z <= b).
    { intros z Hz. specialize (Hap z Hz). unfold blocks_apart in Hap.
      apply orb_prop in Hap. destruct Hap as [Hap|Hap];
        apply Z.leb_le in Hap; auto. }
    split; [|split].
    + constructor; [|exact Hnd]. intros Hin.
      pose proof (Fits_end st b Hb). destruct (Hapart b Hin); lia.
    + intros y [<-|Hy]; auto.
    + intros y z [<-|Hy] [<-|Hz] Hne.
      * contradiction.
      * apply Hapart. exact Hz.
      * destruct (Hapart y Hy); auto.
      * apply Hdis; assumption.
Qed.

Lemma links_ok_Links st l : links_ok st l = true <-> Links st l.
Proof.
  unfold links_ok, Links. rewrite andb_true_iff, Z.eqb_eq, forallb_forall.
  split; intros [Hh Hl]; (split; [exact Hh|]); intros y Hy;
    specialize (Hl y Hy).
  - rewrite andb_true_iff, !Z.eqb_eq in Hl. exact Hl.
  - rewrite andb_true_iff, !Z.eqb_eq. exact Hl.
Qed.

Lemma member_In x l : member x l = true <-> In x l.
Proof.
  unfold member. rewrite existsb_exists. split.
  - intros (y & Hy & Heq). apply Z.eqb_eq in Heq. subst. exact Hy.
  - intros H. exists x. split; [exact H|apply Z.eqb_refl].
Qed.

Lemma Layout_nonnull st blocks : Layout st blocks -> ~ In NULL blocks.
Proof.
  intros (_ & Hfit & _) H. destruct (Hfit NULL H) as [H0 _].
  unfold NULL in H0. lia.
Qed.

(** A layout only depends on the sizes stored in the headers. *)
Lemma Layout_sizes st st' blocks :
  (forall y, In y blocks -> get_size st' y = get_size st y) ->
  Layout st blocks -> Layout st' blocks.
Proof.
  intros Hsz (Hnd & Hfit & Hdis).
  split; [exact Hnd|]. split.
  - intros y Hy. unfold Fits, block_end. rewrite (Hsz y Hy). apply Hfit, Hy.
  - intros y z Hy Hz Hne. unfold block_end.
    rewrite (Hsz y Hy), (Hsz z Hz). apply Hdis; assumption.
Qed.

Lemma Layout_incl st blocks blocks' :
  NoDup blocks' -> incl blocks' blocks -> Layout st blocks -> Layout st blocks'.
Proof.
  intros Hnd' Hincl (Hnd & Hfit & Hdis).
  split; [exact Hnd'|]. split.
  - intros y Hy. apply Hfit, Hincl, Hy.
  - intros y z Hy Hz. apply Hdis; apply Hincl; assumption.
Qed.

(** ** Reading a cell after the list operations *)

Lemma next_field_eq z : 0 <= z -> z + 8 < two64 -> next_field z = z + 8.
Proof. intros. unfold next_field. apply wrap64_small. lia. Qed.

Lemma prev_field_eq z : 0 <= z -> z + 16 < two64 -> prev_field z = z + 16.
Proof. intros. unfold prev_field. apply wrap64_small. lia. Qed.

Lemma read_write_ite st c v a :
  0 <= c <= two64 - 8 -> 0 <= a <= two64 - 8 -> cell_ok c a ->
  read (write st c v) a = if a =? c then wrap64 v else read st a.
Proof.
  intros Hc Ha Hok. destruct (Z.eqb_spec a c) as [->|Hne].
  - apply read_write_same.
  - apply read_write_apart. apply cells_apart_intro; try assumption.
    destruct Hok as [H|[H|H]]; [contradiction|right|left]; exact H.
Qed.

Lemma wrap64_read st a : wrap64 (read st a) = read st a.
Proof. apply wrap64_small, read_range. Qed.

Lemma wrap64_clear w : 0 <= w < two64 -> wrap64 (Z.land w MASK_M2) = Z.land w MASK_M2.
Proof.
  intros Hw. apply wrap64_small. rewrite land_MASK_M2 by assumption.
  Z.div_mod_to_equations. lia.
Qed.

Lemma wrap64_set w : 0 <= w < two64 -> wrap64 (Z.lor w 1) = Z.lor w 1.
Proof.
  intros Hw. apply wrap64_small. rewrite lor_1 by lia.
  unfold two64 in *. Z.div_mod_to_equations. lia.
Qed.

Lemma read_set_used st c a :
  0 <= c <= two64 - 8 -> 0 <= a <= two64 - 8 -> cell_ok c a ->
  read (set_used st c) a
  = if a =? c then Z.land (read st c) MASK_M2 else read st a.
Proof.
  intros. unfold set_used. rewrite read_write_ite by assumption.
  rewrite wrap64_clear by apply read_range. reflexivity.
Qed.

Lemma read_set_free st c a :
  0 <= c <= two64 - 8 -> 0 <= a <= two64 - 8 -> cell_ok c a ->
  read (set_free st c) a
  = if a =? c then Z.lor (read st c) 1 else read st a.
Proof.
  intros. unfold set_free. rewrite read_write_ite by assumption.
  rewrite wrap64_set by apply read_range. reflexivity.
Qed.

Lemma read_set_free_list st v a : read (set_free_list st v) a = read st a.
Proof. reflexivity. Qed.

Lemma read_set_last st v a : read (set_last st v) a = read st a.
Proof. reflexivity. Qed.

Lemma get_size_clear st c :
  Z.land (Z.land (read st c) MASK_M2) MASK_M2 = get_size st c.
Proof.
  unfold get_size.
  rewrite <- Z.land_assoc, Z.land_diag. reflexivity.
Qed.

(** Decides the comparisons of addresses that occur in the goal. *)
Ltac decide_eqb :=
  repeat match goal with
         | |- context [?a =? ?b] =>
             first [ rewrite (proj2 (Z.eqb_neq a b)) by lia
                   | rewrite (proj2 (Z.eqb_eq a b)) by lia ]
         end;
  cbn [negb andb].

(** The memory after [remove_from_free_list], cell by cell: the flag is
    cleared in the header and the footer of [x], and the neighbours of [x] in
    the list are linked to each other. *)
Lemma remove_effect st x nx px sx :
  read st (next_field x) = nx ->
  read st (prev_field x) = px ->
  get_size st x = sx ->
  0 < x -> 16 <= sx -> x + 16 + sx < two64 ->
  (nx = 0 \/ (0 < nx /\ nx + 24 <= two64
              /\ (nx + 24 <= x \/ x + 16 + sx <= nx))) ->
  (px = 0 \/ (0 < px /\ px + 24 <= two64
              /\ (px + 24 <= x \/ x + 16 + sx <= px))) ->
  (nx = 0 \/ px = 0 \/ nx + 24 <= px \/ px + 24 <= nx) ->
  same_markers st (remove_from_free_list st x)
  /\ free_list (remove_from_free_list st x)
     = (if x =? free_list st then nx else free_list st)
  /\ forall a, 0 <= a <= two64 - 8 ->
       cell_ok (x + 8 + sx) a -> cell_ok x a ->
       (px <> 0 -> cell_ok (px + 8) a) ->
       (nx <> 0 -> cell_ok (nx + 16) a) ->
       read (remove_from_free_list st x) a =
         if a =? x + 8 + sx then Z.land (read st a) MASK_M2
         else if a =? x then Z.land (read st a) MASK_M2
         else if negb (px =? 0) && (a =? px + 8) then nx
         else if negb (nx =? 0) && (a =? nx + 16) then px
         else read st a.
Proof.
  intros Hnx Hpx Hsx Hx0 Hsx16 Hxend Hn Hp Hnp.
  split; [apply remove_from_free_list_markers|].
  assert (Hnf : next_field x = x + 8) by (apply next_field_eq; lia).
  assert (Hpf : prev_field x = x + 16) by (apply prev_field_eq; lia).
  unfold remove_from_free_list. cbv zeta. rewrite Hnx, Hpx.
  unfold NULL.
  set (sA := if negb (nx =? 0) then write st (prev_field nx) px else st).
  assert (RA : forall a, 0 <= a <= two64 - 8 ->
                 (nx <> 0 -> cell_ok (nx + 16) a) ->
                 read sA a = if negb (nx =? 0) && (a =? nx + 16) then px
                             else read st a).
  { intros a Ha Hok. unfold sA.
    destruct (Z.eqb_spec nx 0) as [Hz|Hz]; cbn [negb andb]; [reflexivity|].
    rewrite prev_field_eq by lia.
    rewrite read_write_ite by (try apply Hok; lia).
    rewrite <- Hpx, wrap64_read. reflexivity. }
  assert (FA : free_list sA = free_list st).
  { unfold sA. destruct (negb (nx =? 0)); reflexivity. }
  assert (RAp : read sA (prev_field x) = px).
  { rewrite Hpf, RA by (unfold cell_ok; lia).
    destruct (Z.eqb_spec nx 0); cbn [negb andb]; [rewrite <- Hpf; exact Hpx|].
    decide_eqb. rewrite <- Hpf. exact Hpx. }
  assert (RAn : read sA (next_field x) = nx).
  { rewrite Hnf, RA by (unfold cell_ok; lia).
    destruct (Z.eqb_spec nx 0); cbn [negb andb]; [rewrite <- Hnf; exact Hnx|].
    decide_eqb. rewrite <- Hnf. exact Hnx. }
  rewrite RAp, RAn.
  set (sB := if negb (px =? 0) then write sA (next_field px) nx else sA).
  assert (RB : forall a, 0 <= a <= two64 - 8 ->
                 (px <> 0 -> cell_ok (px + 8) a) ->
                 read sB a = if negb (px =? 0) && (a =? px + 8) then nx
                             else read sA a).
  { intros a Ha Hok. unfold sB.
    destruct (Z.eqb_spec px 0) as [Hz|Hz]; cbn [negb andb]; [reflexivity|].
    rewrite next_field_eq by lia.
    rewrite read_write_ite by (try apply Hok; lia).
    rewrite <- Hnx, wrap64_read. reflexivity. }
  assert (FB : free_list sB = free_list st).
  { unfold sB. destruct (negb (px =? 0)); exact FA. }
  assert (RBn : read sB (next_field x) = nx).
  { rewrite Hnf, RB by (unfold cell_ok; lia).
    destruct (Z.eqb_spec px 0); cbn [negb andb]; [rewrite <- Hnf; exact RAn|].
    decide_eqb. rewrite <- Hnf. exact RAn. }
  rewrite FB, RBn.
  set (sC := if x =? free_list st then set_free_list sB nx else sB).
  assert (RC : forall a, read sC a = read sB a).
  { intros a. unfold sC. destruct (x =? free_list st); reflexivity. }
  assert (RCx : read sC x = read st x).
  { rewrite RC, RB, RA by (unfold cell_ok; lia).
    destruct (Z.eqb_spec px 0); destruct (Z.eqb_spec nx 0); cbn [negb andb];
      decide_eqb; reflexivity. }
  assert (Hfoot : get_footer_from_header (set_used sC x) x = x + 8 + sx).
  { unfold get_footer_from_header, get_size, SIZEOF_U64.
    rewrite read_set_used by (unfold cell_ok; lia).
    rewrite Z.eqb_refl, RCx, get_size_clear, Hsx.
    rewrite wrap64_small by lia. lia. }
  rewrite Hfoot.
  split.
  { change (free_list (set_used (set_used sC x) (x + 8 + sx)))
      with (free_list sC).
    unfold sC. destruct (x =? free_list st); [reflexivity|exact FB]. }
  intros a Ha Hokf Hokx Hokp Hokn.
  rewrite read_set_used by (try assumption; lia).
  destruct (Z.eqb_spec a (x + 8 + sx)) as [Haf|Haf].
  { subst a. rewrite read_set_used by (unfold cell_ok; lia). decide_eqb.
    rewrite RC, RB, RA by (unfold cell_ok; lia).
    destruct (Z.eqb_spec px 0); destruct (Z.eqb_spec nx 0); cbn [negb andb];
      decide_eqb; reflexivity. }
  rewrite read_set_used by (try assumption; lia).
  destruct (Z.eqb_spec a x) as [Hax|Hax].
  { subst a. rewrite RCx. reflexivity. }
  rewrite RC, RB by assumption.
  destruct (negb (px =? 0) && (a =? px + 8)); [reflexivity|].
  apply RA; assumption.
Qed.

(** The memory after [add_to_free_list], cell by cell: [x] is linked in
    front of the old head [h], and the flag is set in its header and
    footer. *)
Lemma add_effect st x h sx :
  free_list st = h ->
  get_size st x = sx ->
  0 < x -> 16 <= sx -> x + 16 + sx < two64 ->
  (h = 0 \/ (0 < h /\ h + 24 <= two64
             /\ (h + 24 <= x \/ x + 16 + sx <= h))) ->
  same_markers st (add_to_free_list st x)
  /\ free_list (add_to_free_list st x) = x
  /\ forall a, 0 <= a <= two64 - 8 ->
       cell_ok (x + 8 + sx) a -> cell_ok x a ->
       cell_ok (x + 8) a -> cell_ok (x + 16) a ->
       (h <> 0 -> cell_ok (h + 16) a) ->
       read (add_to_free_list st x) a =
         if a =? x + 8 + sx then Z.lor (read st a) 1
         else if a =? x then Z.lor (read st a) 1
         else if negb (h =? 0) && (a =? h + 16) then x
         else if a =? x + 16 then 0
         else if a =? x + 8 then h
         else read st a.
Proof.
  intros Hh Hsx Hx0 Hsx16 Hxend Hh'.
  split; [apply add_to_free_list_markers|].
  assert (Hnf : next_field x = x + 8) by (apply next_field_eq; lia).
  assert (Hpf : prev_field x = x + 16) by (apply prev_field_eq; lia).
  unfold add_to_free_list. cbv zeta. rewrite Hh, Hnf, Hpf. unfold NULL.
  set (s2 := write (write st (x + 8) h) (x + 16) 0).
  change (free_list s2) with (free_list st). rewrite Hh.
  assert (R2 : forall a, 0 <= a <= two64 - 8 ->
                 cell_ok (x + 8) a -> cell_ok (x + 16) a ->
                 read s2 a = if a =? x + 16 then 0
                             else if a =? x + 8 then h else read st a).
  { intros a Ha Hok1 Hok2. unfold s2.
    rewrite !read_write_ite by (try assumption; lia).
    rewrite (wrap64_small h) by lia. reflexivity. }
  set (s3 := if negb (h =? 0) then write s2 (prev_field h) x else s2).
  assert (R3 : forall a, 0 <= a <= two64 - 8 ->
                 (h <> 0 -> cell_ok (h + 16) a) ->
                 read s3 a = if negb (h =? 0) && (a =? h + 16) then x
                             else read s2 a).
  { intros a Ha Hok. unfold s3.
    destruct (Z.eqb_spec h 0) as [Hz|Hz]; cbn [negb andb]; [reflexivity|].
    rewrite prev_field_eq by lia.
    rewrite read_write_ite by (try apply Hok; lia).
    rewrite (wrap64_small x) by lia. reflexivity. }
  assert (R3x : read s3 x = read st x).
  { rewrite R3, R2 by (unfold cell_ok; lia).
    destruct (Z.eqb_spec h 0); cbn [negb andb]; decide_eqb; reflexivity. }
  assert (Hfoot : get_footer_from_header (set_free (set_free_list s3 x) x) x
                  = x + 8 + sx).
  { unfold get_footer_from_header, get_size, SIZEOF_U64.
    rewrite read_set_free by (unfold cell_ok; lia).
    rewrite Z.eqb_refl, read_set_free_list, R3x.
    assert (Hs : Z.land (Z.lor (read st x) 1) MASK_M2 = sx).
    { rewrite <- Hsx. unfold get_size. pose proof (read_range st x) as Hr.
      rewrite !land_MASK_M2, lor_1; try lia.
      - Z.div_mod_to_equations. lia.
      - rewrite lor_1 by lia. unfold two64 in *.
        Z.div_mod_to_equations. lia. }
    rewrite Hs. rewrite wrap64_small by lia. lia. }
  rewrite Hfoot.
  split; [reflexivity|].
  intros a Ha Hokf Hokx Hok1 Hok2 Hokh.
  rewrite read_set_free by (try assumption; lia).
  destruct (Z.eqb_spec a (x + 8 + sx)) as [Haf|Haf].
  { subst a. rewrite read_set_free by (unfold cell_ok; lia). decide_eqb.
    rewrite read_set_free_list, R3, R2 by (unfold cell_ok; lia).
    destruct (Z.eqb_spec h 0); cbn [negb andb]; decide_eqb; reflexivity. }
  rewrite read_set_free by (try assumption; lia).
  destruct (Z.eqb_spec a x) as [Hax|Hax].
  { subst a. rewrite read_set_free_list, R3x. reflexivity. }
  rewrite read_set_free_list, R3 by assumption.
  destruct (negb (h =? 0) && (a =? h + 16)); [reflexivity|].
  apply R2; assumption.
Qed.

(** ** The free list as a list of blocks *)

Lemma Layout_fit st blocks a :
  Layout st blocks -> In a blocks ->
  0 < a /\ 16 <= get_size st a /\ a + 16 + get_size st a < two64.
Proof.
  intros (_ & Hfit & _) Ha. specialize (Hfit a Ha).
  unfold Fits, block_end, MINIMUM_ALLOC_SIZE, SIZEOF_U64, SIZEOF_FOOTER in Hfit.
  lia.
Qed.

Lemma Layout_pair st blocks a b :
  Layout st blocks -> In a blocks -> In b blocks ->
  a = b \/ a + 16 + get_size st a <= b \/ b + 16 + get_size st b <= a.
Proof.
  intros (_ & _ & Hdis) Ha Hb.
  destruct (Z.eq_dec a b) as [Heq|Hne]; [left; exact Heq|right].
  specialize (Hdis a b Ha Hb Hne).
  unfold block_end, SIZEOF_U64, SIZEOF_FOOTER in Hdis. lia.
Qed.

Lemma succ_in_no_cycle l : forall x y,
  NoDup l -> ~ In NULL l -> In x l -> succ_in l x = y -> y <> NULL ->
  succ_in l y <> x.
Proof.
  induction l as [|a l IH]; intros x y Hnd Hnn Hx Hs Hy; [contradiction|].
  apply NoDup_cons_iff in Hnd as [Hna Hnd].
  assert (Hnn' : ~ In NULL l) by (intros H; apply Hnn; right; exact H).
  assert (Ha0 : a <> NULL) by (intros H; apply Hnn; left; exact H).
  cbn [succ_in] in *.
  destruct (Z.eqb_spec a x) as [Hax|Hax].
  - destruct (Z.eqb_spec a y) as [Hay|Hay].
    + (* the head would be its own successor *)
      exfalso. destruct l as [|b l]; cbn [hd] in Hs; [congruence|].
      apply Hna. left. congruence.
    + intros Hc. destruct (succ_in_cases l y) as [H0|H0].
      * apply Ha0. rewrite Hax, <- Hc. exact H0.
      * apply Hna. rewrite Hax, <- Hc. exact H0.
  - destruct Hx as [Hx|Hx]; [contradiction|].
    destruct (Z.eqb_spec a y) as [Hay|Hay].
    + exfalso. destruct (succ_in_cases l x) as [H0|H0].
      * apply Hy. rewrite <- Hs. exact H0.
      * apply Hna. rewrite Hay, <- Hs. exact H0.
    + apply IH; assumption.
Qed.

(** Links only depend on the link fields of the blocks of the list. *)
Lemma Links_frame st st' l :
  free_list st' = free_list st ->
  (forall y, In y l ->
     read st' (next_field y) = read st (next_field y)
     /\ read st' (prev_field y) = read st (prev_field y)) ->
  Links st l -> Links st' l.
Proof.
  intros Hfl Hrd [Hh Hl]. split; [congruence|].
  intros y Hy. destruct (Hrd y Hy) as [-> ->]. apply Hl, Hy.
Qed.

(** Removing a block of the free list gives the list without it, and
    changes no size. *)
Lemma remove_Links st blocks l x :
  Layout st blocks -> incl l blocks -> NoDup l -> Links st l -> In x l ->
  Links (remove_from_free_list st x) (without x l)
  /\ (forall y, In y blocks ->
        get_size (remove_from_free_list st x) y = get_size st y)
  /\ read (remove_from_free_list st x) x = Z.land (read st x) MASK_M2.
Proof.
  intros HL Hincl Hnd [Hhd Hlk] Hx.
  assert (Hnn : ~ In NULL l).
  { intros H. apply (Layout_nonnull st blocks HL). apply Hincl, H. }
  assert (Hx0 : x <> NULL) by (intros H; apply Hnn; rewrite <- H; exact Hx).
  destruct (Hlk x Hx) as [Hnx Hpx].
  pose proof (Layout_fit st blocks x HL (Hincl x Hx)) as Fx.
  (* the neighbours of [x] in the list *)
  assert (Hn : succ_in l x = 0 \/
               (In (succ_in l x) l /\ succ_in l x <> x)).
  { destruct (succ_in_cases l x) as [H|H]; [left; exact H|right].
    split; [exact H|]. apply succ_in_neq; assumption. }
  assert (Hp : pred_in l x = 0 \/
               (In (pred_in l x) l /\ pred_in l x <> x)).
  { destruct (pred_in_cases l x) as [H|H]; [left; exact H|right].
    split; [exact H|]. apply pred_from_neq; auto. }
  assert (Hnp : succ_in l x = 0 \/ succ_in l x <> pred_in l x).
  { destruct (Z.eq_dec (succ_in l x) 0) as [H|H]; [left; exact H|right].
    intros Heq.
    assert (Hin : In (succ_in l x) l) by (destruct Hn as [|[? _]]; tauto).
    apply (succ_in_no_cycle l x (succ_in l x) Hnd Hnn Hx eq_refl H).
    apply (succ_pred_dual l NULL (succ_in l x) x Hnd Hnn Hnn Hin Hx).
    symmetry. exact Heq. }
  remember (succ_in l x) as nx eqn:Enx. remember (pred_in l x) as px eqn:Epx.
  assert (Fn : nx = 0 \/ (0 < nx /\ 16 <= get_size st nx
                          /\ nx + 16 + get_size st nx < two64)).
  { destruct Hn as [H|[H _]]; [left; exact H|right].
    apply (Layout_fit st blocks nx HL (Hincl nx H)). }
  assert (Fp : px = 0 \/ (0 < px /\ 16 <= get_size st px
                          /\ px + 16 + get_size st px < two64)).
  { destruct Hp as [H|[H _]]; [left; exact H|right].
    apply (Layout_fit st blocks px HL (Hincl px H)). }
  assert (Pnx : nx = 0 \/ nx + 16 + get_size st nx <= x
                \/ x + 16 + get_size st x <= nx).
  { destruct Hn as [H|[H Hne]]; [left; exact H|right].
    destruct (Layout_pair st blocks nx x HL (Hincl nx H) (Hincl x Hx))
      as [Heq|Hd]; [contradiction|exact Hd]. }
  assert (Ppx : px = 0 \/ px + 16 + get_size st px <= x
                \/ x + 16 + get_size st x <= px).
  { destruct Hp as [H|[H Hne]]; [left; exact H|right].
    destruct (Layout_pair st blocks px x HL (Hincl px H) (Hincl x Hx))
      as [Heq|Hd]; [contradiction|exact Hd]. }
  assert (Pnp : nx = 0 \/ px = 0 \/ nx + 16 + get_size st nx <= px
                \/ px + 16 + get_size st px <= nx).
  { destruct Hnp as [H|Hne]; [left; exact H|].
    destruct Hn as [H|[Hin _]]; [left; exact H|].
    destruct Hp as [H|[Hip _]]; [right; left; exact H|]. right. right.
    destruct (Layout_pair st blocks nx px HL (Hincl nx Hin) (Hincl px Hip))
      as [Heq|Hd]; [contradiction|exact Hd]. }
  destruct (remove_effect st x nx px (get_size st x) Hnx Hpx eq_refl)
    as (_ & Hfl & Hrd); try lia.
  clear Hnp Pnp Fn Fp Pnx Ppx.
  (* what is known about a block [y] and the neighbours of [x] *)
  assert (Near : forall y, In y blocks ->
            (0 < y /\ 16 <= get_size st y /\ y + 16 + get_size st y < two64)
            /\ (y = x \/ y + 16 + get_size st y <= x
                \/ x + 16 + get_size st x <= y)
            /\ (nx = 0 \/ y = nx
                \/ (16 <= get_size st nx
                    /\ (y + 16 + get_size st y <= nx
                        \/ nx + 16 + get_size st nx <= y)))
            /\ (px = 0 \/ y = px
                \/ (16 <= get_size st px
                    /\ (y + 16 + get_size st y <= px
                        \/ px + 16 + get_size st px <= y)))).
  { intros y Hy.
    split; [apply (Layout_fit st blocks y HL Hy)|].
    split; [apply (Layout_pair st blocks y x HL Hy (Hincl x Hx))|].
    split.
    - destruct Hn as [H|[H _]]; [left; exact H|right].
      pose proof (Layout_fit st blocks nx HL (Hincl nx H)).
      destruct (Layout_pair st blocks y nx HL Hy (Hincl nx H)) as [?|?];
        [left; assumption|right; split; [lia|assumption]].
    - destruct Hp as [H|[H _]]; [left; exact H|right].
      pose proof (Layout_fit st blocks px HL (Hincl px H)).
      destruct (Layout_pair st blocks y px HL Hy (Hincl px H)) as [?|?];
        [left; assumption|right; split; [lia|assumption]]. }
  assert (Hpx0 : px = 0 \/ 0 < px).
  { destruct Hp as [H|[H _]]; [left; exact H|right].
    apply (Layout_fit st blocks px HL (Hincl px H)). }
  assert (Hnx0 : nx = 0 \/ 0 < nx).
  { destruct Hn as [H|[H _]]; [left; exact H|right].
    apply (Layout_fit st blocks nx HL (Hincl nx H)). }
  clear Hn Hp.
  split; [split|split].
  - (* the head *)
    rewrite Hfl, Hhd, hd_without by assumption.
    rewrite (Z.eqb_sym x), Enx. reflexivity.
  - (* the links of the blocks that stay *)
    intros y Hy. apply in_without in Hy. destruct Hy as [Hy Hyx].
    destruct (Near y (Hincl y Hy)) as (Fy & Pyx & Pyn & Pyp).
    destruct (Hlk y Hy) as [Hny Hpy].
    rewrite (next_field_eq y) in Hny |- * by (clear - Fy; lia).
    rewrite (prev_field_eq y) in Hpy |- * by (clear - Fy; lia).
    pose proof (succ_pred_dual l NULL y x Hnd Hnn Hnn Hy Hx) as Dp.
    fold (pred_in l x) in Dp. rewrite <- Epx in Dp.
    pose proof (succ_pred_dual l NULL x y Hnd Hnn Hnn Hx Hy) as Dn.
    fold (pred_in l y) in Dn. rewrite <- Enx in Dn.
    clear Hlk Hhd Hfl HL Hincl Near.
    split.
    + rewrite Hrd by (clear - Fx Fy Pyx Pyn Pyp Hyx; unfold cell_ok; lia).
      rewrite succ_without by assumption. rewrite <- Enx.
      destruct (Z.eqb_spec (succ_in l y) x) as [Hs|Hs].
      * apply Dp in Hs.
        clear - Fx Fy Pyx Hyx Hs. decide_eqb. reflexivity.
      * assert (Hne : px <> y) by (intros Hc; apply Hs, Dp, Hc).
        clear - Fx Fy Pyx Pyn Pyp Hyx Hne Hny Hpx0 Hnx0.
        destruct (Z.eqb_spec px 0); destruct (Z.eqb_spec nx 0);
          cbn [negb andb]; decide_eqb; exact Hny.
    + rewrite Hrd by (clear - Fx Fy Pyx Pyn Pyp Hyx; unfold cell_ok; lia).
      unfold pred_in. rewrite pred_without; auto.
      fold (pred_in l y). fold (pred_in l x). rewrite <- Epx.
      destruct (Z.eqb_spec (pred_in l y) x) as [Hs|Hs].
      * apply Dn in Hs.
        clear - Fx Fy Pyx Pyp Hyx Hs Hpx0.
        destruct (Z.eqb_spec px 0); cbn [negb andb]; decide_eqb; reflexivity.
      * assert (Hne : nx <> y) by (intros Hc; apply Hs, Dn, Hc).
        clear - Fx Fy Pyx Pyn Pyp Hyx Hne Hpy Hpx0 Hnx0.
        destruct (Z.eqb_spec px 0); destruct (Z.eqb_spec nx 0);
          cbn [negb andb]; decide_eqb; exact Hpy.
  - (* the sizes *)
    intros y Hy.
    destruct (Near y Hy) as (Fy & Pyx & Pyn & Pyp).
    unfold get_size at 1.
    rewrite Hrd by (clear - Fx Fy Pyx Pyn Pyp; unfold cell_ok; lia).
    clear - Fx Fy Pyx Pyn Pyp Hpx0 Hnx0.
    destruct (Z.eqb_spec y x) as [Hyx|Hyx].
    + subst y. decide_eqb. apply get_size_clear.
    + destruct (Z.eqb_spec px 0); destruct (Z.eqb_spec nx 0);
        cbn [negb andb]; decide_eqb; reflexivity.
  - (* the header of the block *)
    destruct (Near x (Hincl x Hx)) as (_ & _ & Pxn & Pxp).
    rewrite Hrd by (clear - Fx Pxn Pxp; unfold cell_ok; lia).
    clear - Fx. decide_eqb. reflexivity.
Qed.

Lemma get_size_set w :
  0 <= w < two64 -> Z.land (Z.lor w 1) MASK_M2 = Z.land w MASK_M2.
Proof.
  intros Hw. rewrite lor_1 by lia.
  rewrite !land_MASK_M2; unfold two64 in *; Z.div_mod_to_equations; lia.
Qed.

(** Putting a block on the free list gives the list with the block in
    front, sets the flag in its header and footer, and changes no size. *)
Lemma add_Links st l x :
  Layout st (x :: l) -> Links st l ->
  Links (add_to_free_list st x) (x :: l)
  /\ (forall y, In y (x :: l) ->
        get_size (add_to_free_list st x) y = get_size st y)
  /\ read (add_to_free_list st x) x = Z.lor (read st x) 1
  /\ read (add_to_free_list st x) (x + 8 + get_size st x)
     = Z.lor (read st (x + 8 + get_size st x)) 1.
Proof.
  intros HL [Hhd Hlk].
  assert (Hnd : NoDup (x :: l)) by apply HL.
  apply NoDup_cons_iff in Hnd as [Hxl Hnd].
  pose proof (Layout_fit st (x :: l) x HL (or_introl eq_refl)) as Fx.
  remember (free_list st) as h eqn:Eh.
  assert (Hh : h = 0 \/ In h l).
  { rewrite Hhd. destruct l as [|b l]; [left|right; left]; reflexivity. }
  assert (Near : forall y, In y l ->
            (0 < y /\ 16 <= get_size st y /\ y + 16 + get_size st y < two64)
            /\ y <> x
            /\ (y + 16 + get_size st y <= x \/ x + 16 + get_size st x <= y)
            /\ (h = 0 \/ y = h
                \/ (16 <= get_size st h
                    /\ (y + 16 + get_size st y <= h
                        \/ h + 16 + get_size st h <= y)))).
  { intros y Hy.
    assert (Hyx : y <> x) by (intros Hc; apply Hxl; rewrite <- Hc; exact Hy).
    split; [apply (Layout_fit st (x :: l) y HL (or_intror Hy))|].
    split; [exact Hyx|]. split.
    - destruct (Layout_pair st (x :: l) y x HL (or_intror Hy)
                  (or_introl eq_refl)) as [?|?]; [contradiction|assumption].
    - destruct Hh as [H|H]; [left; exact H|right].
      pose proof (Layout_fit st (x :: l) h HL (or_intror H)).
      destruct (Layout_pair st (x :: l) y h HL (or_intror Hy) (or_intror H))
        as [?|?]; [left; assumption|right; split; [lia|assumption]]. }
  assert (Hh' : h = 0 \/ (0 < h /\ h + 24 <= two64
                          /\ (h + 24 <= x \/ x + 16 + get_size st x <= h))).
  { destruct Hh as [H|H]; [left; exact H|right].
    destruct (Near h H) as (Fh & _ & Ph & _). clear - Fh Ph Fx. lia. }
  destruct (add_effect st x h (get_size st x) (eq_sym Eh) eq_refl)
    as (_ & Hfl & Hrd); try (clear - Fx Hh'; lia).
  assert (Hh0 : h = 0 \/ 0 < h) by (clear - Hh'; lia).
  split; [split|split; [|split]].
  - exact Hfl.
  - intros y [Hy|Hy].
    + (* the new head *)
      subst y. cbn [succ_in pred_in pred_from]. rewrite Z.eqb_refl.
      rewrite next_field_eq, prev_field_eq by (clear - Fx; lia).
      rewrite !Hrd by (clear - Fx Hh'; unfold cell_ok; lia).
      rewrite <- Hhd. clear - Fx Hh'.
      split; destruct (Z.eqb_spec h 0); cbn [negb andb]; decide_eqb;
        try reflexivity; lia.
    + destruct (Near y Hy) as (Fy & Hyx & Pyx & Pyh).
      destruct (Hlk y Hy) as [Hny Hpy].
      rewrite (next_field_eq y) in Hny |- * by (clear - Fy; lia).
      rewrite (prev_field_eq y) in Hpy |- * by (clear - Fy; lia).
      unfold pred_in. cbn [succ_in pred_from].
      rewrite (proj2 (Z.eqb_neq x y)) by congruence.
      rewrite (pred_from_head l x y). fold (pred_in l y). rewrite <- Hhd.
      rewrite !Hrd by (clear - Fx Fy Pyx Pyh; unfold cell_ok; lia).
      assert (Hl : In y l) by exact Hy.
      clear - Fx Fy Pyx Pyh Hny Hpy Hh0 Hl.
      split.
      * destruct (Z.eqb_spec h 0); cbn [negb andb]; decide_eqb; exact Hny.
      * destruct (Z.eqb_spec h y) as [Hhy|Hhy].
        -- subst h. destruct l as [|b l]; [contradiction|].
           destruct (Z.eqb_spec y 0); [lia|]. cbn [negb andb]. decide_eqb.
           reflexivity.
        -- destruct (Z.eqb_spec h 0); cbn [negb andb]; decide_eqb; exact Hpy.
  - (* the sizes *)
    intros y [Hy|Hy].
    + subst y. unfold get_size at 1.
      rewrite Hrd by (clear - Fx Hh'; unfold cell_ok; lia).
      clear - Fx. decide_eqb. apply get_size_set, read_range.
    + destruct (Near y Hy) as (Fy & Hyx & Pyx & Pyh).
      unfold get_size at 1.
      rewrite Hrd by (clear - Fx Fy Pyx Pyh; unfold cell_ok; lia).
      clear - Fx Fy Pyx Pyh Hh0.
      destruct (Z.eqb_spec h 0); cbn [negb andb]; decide_eqb; reflexivity.
  - rewrite Hrd by (clear - Fx Hh'; unfold cell_ok; lia).
    clear - Fx. decide_eqb. reflexivity.
  - rewrite Hrd by (clear - Fx Hh'; unfold cell_ok; lia).
    clear - Fx. decide_eqb. reflexivity.
Qed.

Lemma write_merged_markers st x size :
  same_markers st (write_merged st x size).
Proof.
  unfold write_merged. cbv zeta.
  eapply same_markers_trans; [|apply add_to_free_list_markers].
  repeat markers_step.
Qed.

Lemma lor_1_even w : 0 <= w -> w mod 2 = 0 -> Z.lor w 1 = w + 1.
Proof. intros Hw He. rewrite lor_1 by assumption. lia. Qed.

Lemma land_lor_even w :
  0 <= w -> w + 1 < two64 -> w mod 2 = 0 -> Z.land (Z.lor w 1) MASK_M2 = w.
Proof.
  intros Hw Hlt He. rewrite get_size_set by lia.
  rewrite land_MASK_M2 by lia. lia.
Qed.

(** A block [x] that takes up room free of other blocks of the free list is
    given the size [size] in header and footer and is put in front of the
    list. *)
Lemma write_merged_Links st l x size :
  Layout st l -> Links st l ->
  0 < x -> 16 <= size -> size mod 2 = 0 -> x + 16 + size < two64 ->
  (forall y, In y l ->
     y + 16 + get_size st y <= x \/ x + 16 + size <= y) ->
  Links (write_merged st x size) (x :: l)
  /\ read (write_merged st x size) x = Z.lor size 1
  /\ read (write_merged st x size) (x + 8 + size) = Z.lor size 1
  /\ get_size (write_merged st x size) x = size.
Proof.
  intros HL HLk Hx0 Hs16 Hev Hend Hroom.
  unfold write_merged. cbv zeta.
  set (t1 := write st x size).
  set (t2 := set_free t1 x).
  assert (R2x : read t2 x = Z.lor size 1).
  { unfold t2, t1. rewrite read_set_free by (unfold cell_ok; lia).
    rewrite Z.eqb_refl, read_write_same. rewrite wrap64_small by lia.
    reflexivity. }
  assert (R2 : forall a, 0 <= a <= two64 - 8 -> cell_ok x a -> a <> x ->
                 read t2 a = read st a).
  { intros a Ha Hok Hne. unfold t2, t1.
    rewrite read_set_free by (try assumption; lia). decide_eqb.
    rewrite read_write_ite by (try assumption; lia). decide_eqb.
    reflexivity. }
  assert (Hfoot2 : get_footer_from_header t2 x = x + 8 + size).
  { unfold get_footer_from_header, get_size, SIZEOF_U64. rewrite R2x.
    rewrite land_lor_even by lia. rewrite wrap64_small by lia. lia. }
  rewrite Hfoot2.
  set (t3 := write t2 (x + 8 + size) size).
  assert (R3x : read t3 x = Z.lor size 1).
  { unfold t3. rewrite read_write_ite by (unfold cell_ok; lia).
    decide_eqb. exact R2x. }
  assert (Hfoot3 : get_footer_from_header t3 x = x + 8 + size).
  { unfold get_footer_from_header, get_size, SIZEOF_U64. rewrite R3x.
    rewrite land_lor_even by lia. rewrite wrap64_small by lia. lia. }
  rewrite Hfoot3.
  set (t4 := set_free t3 (x + 8 + size)).
  assert (R4 : forall a, 0 <= a <= two64 - 8 ->
                 cell_ok x a -> cell_ok (x + 8 + size) a ->
                 read t4 a = if a =? x + 8 + size then Z.lor size 1
                             else if a =? x then Z.lor size 1
                             else read st a).
  { intros a Ha Hok1 Hok2. unfold t4.
    rewrite read_set_free by (try assumption; lia).
    destruct (Z.eqb_spec a (x + 8 + size)) as [Haf|Haf].
    - unfold t3. rewrite read_write_same. rewrite wrap64_small by lia.
      rewrite lor_1_even by lia. reflexivity.
    - unfold t3. rewrite read_write_ite by (try assumption; lia).
      decide_eqb.
      destruct (Z.eqb_spec a x) as [Hax|Hax]; [subst a; exact R2x|].
      apply R2; assumption. }
  assert (S4x : get_size t4 x = size).
  { unfold get_size. rewrite R4 by (unfold cell_ok; lia). decide_eqb.
    apply land_lor_even; lia. }
  assert (Near : forall y, In y l ->
            (0 < y /\ 16 <= get_size st y /\ y + 16 + get_size st y < two64)
            /\ (y + 16 + get_size st y <= x \/ x + 16 + size <= y)).
  { intros y Hy. split; [apply (Layout_fit st l y HL Hy)|apply Hroom, Hy]. }
  assert (S4 : forall y, In y l -> get_size t4 y = get_size st y).
  { intros y Hy. destruct (Near y Hy) as [Fy Py].
    unfold get_size. rewrite R4 by (clear - Fy Py Hs16 Hx0 Hend; unfold cell_ok; lia).
    clear - Fy Py Hs16 Hx0 Hend. decide_eqb. reflexivity. }
  assert (L4 : Layout t4 (x :: l)).
  { destruct HL as (Hnd & Hfit & Hdis). split; [|split].
    - constructor; [|exact Hnd]. intros Hin.
      destruct (Near x Hin) as [Fy Py]. clear - Fy Py Hs16. lia.
    - intros y [Hy|Hy].
      + subst y. unfold Fits, block_end, MINIMUM_ALLOC_SIZE, SIZEOF_U64,
          SIZEOF_FOOTER. rewrite S4x. lia.
      + unfold Fits, block_end. rewrite (S4 y Hy). apply Hfit, Hy.
    - intros y z [Hy|Hy] [Hz|Hz] Hne; unfold block_end, SIZEOF_U64,
        SIZEOF_FOOTER.
      + congruence.
      + subst y. rewrite S4x, (S4 z Hz).
        destruct (Near z Hz) as [_ Pz]. clear - Pz. lia.
      + subst z. rewrite S4x, (S4 y Hy).
        destruct (Near y Hy) as [_ Py]. clear - Py. lia.
      + rewrite (S4 y Hy), (S4 z Hz).
        specialize (Hdis y z Hy Hz Hne).
        unfold block_end, SIZEOF_U64, SIZEOF_FOOTER in Hdis. exact Hdis. }
  assert (K4 : Links t4 l).
  { apply (Links_frame st t4 l); [reflexivity| |exact HLk].
    intros y Hy. destruct (Near y Hy) as [Fy Py].
    rewrite next_field_eq, prev_field_eq by (clear - Fy; lia).
    rewrite !R4 by (clear - Fy Py Hs16 Hx0 Hend; unfold cell_ok; lia).
    clear - Fy Py Hs16 Hx0 Hend. decide_eqb. split; reflexivity. }
  destruct (add_Links t4 l x L4 K4) as (Hlinks & Hsz & Hrx & Hrf).
  rewrite S4x in Hrf.
  split; [exact Hlinks|]. split; [|split].
  - rewrite Hrx, R4 by (unfold cell_ok; lia). decide_eqb.
    rewrite <- Z.lor_assoc. reflexivity.
  - rewrite Hrf, R4 by (unfold cell_ok; lia). decide_eqb.
    rewrite <- Z.lor_assoc. reflexivity.
  - rewrite (Hsz x (or_introl eq_refl)). exact S4x.
Qed.

(** ** Release between two free neighbours *)

Lemma Layout_without st blocks l x :
  Layout st blocks -> incl l blocks -> NoDup l ->
  incl (without x l) blocks /\ NoDup (without x l).
Proof.
  intros _ Hincl Hnd. split; [|apply NoDup_without, Hnd].
  intros y Hy. apply in_without in Hy. apply Hincl, Hy.
Qed.

Lemma read_mem st st' a : mem st' = mem st -> read st' a = read st a.
Proof. unfold read. intros ->. reflexivity. Qed.

Lemma get_size_mem st st' a :
  mem st' = mem st -> get_size st' a = get_size st a.
Proof. unfold get_size. intros H. rewrite (read_mem st st' a H). reflexivity. Qed.

(** The assignment to [last] in the merging branches of [Free]. *)
Lemma retarget_last st (c : bool) v :
  let st' := if c then set_last st v else st in
  mem st' = mem st /\ free_list st' = free_list st /\ heap st' = heap st
  /\ heap_end st' = heap_end st /\ first st' = first st
  /\ last st' = (if c then v else last st).
Proof. destruct c; cbn; repeat split. Qed.


(** X17: a block is released whose left neighbour (found through the footer
    word before the block) and right neighbour both exist and are marked
    free, in a heap where the released block and the blocks [l] of the free
    list fit and do not overlap, the links of the free list are in order and
    the left neighbour ends where the released block starts.  Then both
    neighbours leave the free list and the merged block is put in front of
    it; [last] is set to the left neighbour when the right neighbour was
    [last]; the merged usable size is the sum of the three usable sizes plus
    two header-footer overheads, and this size with the free flag is in the
    header of the left neighbour and in the footer of the right neighbour,
    which is the footer of the merged block. *)
Theorem Free_merges_both_neighbours :
  forall (st : state) (p : Z) (l : list Z),
    let m_block := head_addr p in
    let prev_block := left_neighbour st m_block in
    let next_block := right_neighbour st m_block in
    let merged :=
      get_size st prev_block + get_size st m_block + get_size st next_block
      + 2 * (SIZEOF_U64 + SIZEOF_FOOTER) in
    p <> NULL ->
    m_block <> first st ->
    m_block <> last st ->
    is_free st prev_block = true ->
    is_free st next_block = true ->
    layout_ok st (m_block :: l) = true ->
    links_ok st l = true ->
    member prev_block l = true ->
    member next_block l = true ->
    block_end st prev_block = m_block ->
    links_ok (Free st p)
      (prev_block :: without prev_block (without next_block l)) = true
    /\ last (Free st p)
       = (if next_block =? last st then prev_block else last st)
    /\ read (Free st p) prev_block = Z.lor merged 1
    /\ read (Free st p) (get_footer_from_header st next_block)
       = Z.lor merged 1
    /\ get_footer_from_header (Free st p) prev_block
       = get_footer_from_header st next_block
    /\ first (Free st p) = first st
    /\ heap (Free st p) = heap st
    /\ heap_end (Free st p) = heap_end st.
Proof.
  intros st p l m P N merged Hp Hfirst Hlast HfP HfN HL HK HPl HNl Htag.
  assert (Em : head_addr p = m) by reflexivity.
  assert (EP : left_neighbour st m = P) by reflexivity.
  assert (EN : right_neighbour st m = N) by reflexivity.
  assert (Emerged : merged = get_size st P + get_size st m + get_size st N + 32)
    by reflexivity.
  clearbody merged N P m.
  apply layout_ok_Layout in HL. apply links_ok_Links in HK.
  apply member_In in HPl, HNl.
  assert (Hnd : NoDup (m :: l)) by apply HL.
  apply NoDup_cons_iff in Hnd as [Hml Hnd].
  assert (Hincl : incl l (m :: l)) by (intros y Hy; right; exact Hy).
  pose proof (Layout_fit st (m :: l) m HL (or_introl eq_refl)) as Fm.
  pose proof (Layout_fit st (m :: l) P HL (Hincl P HPl)) as FP.
  pose proof (Layout_fit st (m :: l) N HL (Hincl N HNl)) as FN.
  unfold block_end, SIZEOF_U64, SIZEOF_FOOTER in Htag.
  (* the right neighbour starts where the released block ends *)
  assert (HN : N = m + 16 + get_size st m).
  { rewrite <- EN. unfold right_neighbour, SIZEOF_U64, SIZEOF_FOOTER.
    rewrite (proj2 (Z.eqb_neq m (last st))) by assumption. cbn [negb].
    rewrite wrap64_small by lia. lia. }
  assert (HPN : P <> N) by lia.
  (* the two removals *)
  remember (remove_from_free_list st N) as s1 eqn:E1.
  remember (remove_from_free_list s1 P) as s2 eqn:E2.
  remember (if N =? last s2 then set_last s2 P else s2) as s3 eqn:E3.
  destruct (remove_Links st (m :: l) l N HL Hincl Hnd HK HNl)
    as (K1 & Z1 & _).
  rewrite <- E1 in K1, Z1.
  assert (L1 : Layout s1 (m :: l)) by (apply (Layout_sizes st); assumption).
  destruct (Layout_without st (m :: l) l N HL Hincl Hnd) as [Hincl1 Hnd1].
  assert (HP1 : In P (without N l)) by (apply in_without; auto).
  destruct (remove_Links s1 (m :: l) (without N l) P L1 Hincl1 Hnd1 K1 HP1)
    as (K2 & Z2 & _).
  rewrite <- E2 in K2, Z2.
  assert (L2 : Layout s2 (m :: l)) by (apply (Layout_sizes s1); assumption).
  destruct (Layout_without s1 (m :: l) (without N l) P L1 Hincl1 Hnd1)
    as [Hincl2 Hnd2].
  assert (M2 : same_markers st s2).
  { rewrite E2, E1.
    eapply same_markers_trans; apply remove_from_free_list_markers. }
  destruct (retarget_last s2 (N =? last s2) P)
    as (T3m & T3f & T3h & T3e & T3i & T3l).
  rewrite <- E3 in T3m, T3f, T3h, T3e, T3i, T3l.
  assert (Z3 : forall y, In y (m :: l) -> get_size s3 y = get_size st y).
  { intros y Hy. rewrite <- (Z1 y Hy), <- (Z2 y Hy).
    apply get_size_mem, T3m. }
  assert (K3 : Links s3 (without P (without N l))).
  { apply (Links_frame s2); [exact T3f| |exact K2].
    intros y _. split; apply read_mem, T3m. }
  assert (L3 : Layout s3 (without P (without N l))).
  { apply (Layout_incl s3 (m :: l)); [exact Hnd2|exact Hincl2|].
    apply (Layout_sizes st); assumption. }
  assert (M3 : heap s3 = heap st /\ heap_end s3 = heap_end st
               /\ first s3 = first st
               /\ last s3 = (if N =? last st then P else last st)).
  { destruct M2 as (Hh & He & Hl & Hf & _).
    rewrite T3h, T3e, T3i, T3l, Hl. auto. }
  (* the merged size *)
  pose proof (get_size_even st P) as EvP.
  pose proof (get_size_even st m) as Evm.
  pose proof (get_size_even st N) as EvN.
  assert (Hev : merged mod 2 = 0).
  { rewrite Emerged. clear - EvP Evm EvN. Z.div_mod_to_equations. lia. }
  assert (Hrange : 16 <= merged /\ P + 16 + merged < two64
                   /\ P + 8 + merged = N + 8 + get_size st N).
  { clear - Emerged FP Fm FN Htag HN. lia. }
  assert (EQ : Free st p = write_merged s3 P merged).
  { unfold Free. rewrite (proj2 (Z.eqb_neq p 0)) by exact Hp.
    cbv zeta. rewrite Em, EP, EN.
    rewrite (proj2 (Z.eqb_neq N NULL)) by (unfold NULL; lia).
    rewrite (proj2 (Z.eqb_neq P NULL)) by (unfold NULL; lia).
    rewrite HfP, HfN. cbn [negb andb].
    rewrite <- E1, <- E2, <- E3.
    rewrite (Z3 P (Hincl P HPl)), (Z3 m (or_introl eq_refl)),
      (Z3 N (Hincl N HNl)).
    f_equal. unfold SIZEOF_U64, SIZEOF_FOOTER.
    rewrite (wrap64_small (_ + _ + _ + 3 * 8 + 3 * 8))
      by (clear - Emerged Hrange FP; lia).
    rewrite wrap64_small by (clear - Emerged Hrange FP; lia).
    clear - Emerged. lia. }
  (* the merged block takes the room of the three blocks *)
  assert (Hroom : forall y, In y (without P (without N l)) ->
            y + 16 + get_size s3 y <= P \/ P + 16 + merged <= y).
  { intros y Hy. pose proof (Hincl2 y Hy) as Hyb.
    apply in_without in Hy. destruct Hy as [Hy HyP].
    apply in_without in Hy. destruct Hy as [Hy HyN].
    assert (Hym : y <> m) by (intros Hc; apply Hml; rewrite <- Hc; exact Hy).
    rewrite (Z3 y Hyb).
    pose proof (Layout_fit st (m :: l) y HL Hyb) as Fy.
    pose proof (Layout_pair st (m :: l) y P HL Hyb (Hincl P HPl)) as P1.
    pose proof (Layout_pair st (m :: l) y m HL Hyb (or_introl eq_refl)) as P2.
    pose proof (Layout_pair st (m :: l) y N HL Hyb (Hincl N HNl)) as P3.
    clear - Fy P1 P2 P3 HyP HyN Hym Hrange Htag HN Emerged FP Fm FN. lia. }
  destruct (write_merged_Links s3 (without P (without N l)) P merged L3 K3)
    as (K4 & R4P & R4F & S4); try (clear - FP Hev Hrange; lia); [exact Hroom|].
  pose proof (write_merged_markers s3 P merged) as (Mh & Me & Ml & Mf & _).
  destruct M3 as (Mh3 & Me3 & Mf3 & Ml3).
  assert (HfootN : get_footer_from_header st N = P + 8 + merged).
  { unfold get_footer_from_header, SIZEOF_U64.
    rewrite wrap64_small by (clear - FN; lia). clear - Hrange. lia. }
  rewrite EQ. rewrite HfootN.
  split; [apply links_ok_Links; exact K4|].
  split; [congruence|].
  split; [exact R4P|].
  split; [exact R4F|].
  split.
  { unfold get_footer_from_header, SIZEOF_U64. rewrite S4.
    rewrite wrap64_small by (clear - FP Hrange; lia). lia. }
  repeat split; congruence.
Qed.

(** ** Release next to one free neighbour, and next to none *)

(** X18: a block is released whose right neighbour exists and is marked free,
    while no free left neighbour is found.  The right neighbour leaves the
    free list and the released block, grown over it, is put in front of the
    list; [last] is set to the released block when the right neighbour was
    [last]; the merged usable size is the sum of the two usable sizes plus
    one header-footer overhead, stored with the free flag in the header of
    the released block and in the footer of the right neighbour. *)
Theorem Free_merges_right_neighbour :
  forall (st : state) (p : Z) (l : list Z),
    let m_block := head_addr p in
    let prev_block := left_neighbour st m_block in
    let next_block := right_neighbour st m_block in
    let merged :=
      get_size st m_block + get_size st next_block
      + (SIZEOF_U64 + SIZEOF_FOOTER) in
    p <> NULL ->
    m_block <> last st ->
    is_free st next_block = true ->
    negb (prev_block =? NULL) && is_free st prev_block = false ->
    layout_ok st (m_block :: l) = true ->
    links_ok st l = true ->
    member next_block l = true ->
    links_ok (Free st p) (m_block :: without next_block l) = true
    /\ last (Free st p) = (if next_block =? last st then m_block else last st)
    /\ read (Free st p) m_block = Z.lor merged 1
    /\ read (Free st p) (get_footer_from_header st next_block)
       = Z.lor merged 1
    /\ get_footer_from_header (Free st p) m_block
       = get_footer_from_header st next_block
    /\ first (Free st p) = first st
    /\ heap (Free st p) = heap st
    /\ heap_end (Free st p) = heap_end st.
Proof.
  intros st p l m P N merged Hp Hlast HfN HnoP HL HK HNl.
  assert (Em : head_addr p = m) by reflexivity.
  assert (EP : left_neighbour st m = P) by reflexivity.
  assert (EN : right_neighbour st m = N) by reflexivity.
  assert (Emerged : merged = get_size st m + get_size st N + 16)
    by reflexivity.
  clearbody merged N P m.
  apply layout_ok_Layout in HL. apply links_ok_Links in HK.
  apply member_In in HNl.
  assert (Hnd : NoDup (m :: l)) by apply HL.
  apply NoDup_cons_iff in Hnd as [Hml Hnd].
  assert (Hincl : incl l (m :: l)) by (intros y Hy; right; exact Hy).
  pose proof (Layout_fit st (m :: l) m HL (or_introl eq_refl)) as Fm.
  pose proof (Layout_fit st (m :: l) N HL (Hincl N HNl)) as FN.
  assert (HN : N = m + 16 + get_size st m).
  { rewrite <- EN. unfold right_neighbour, SIZEOF_U64, SIZEOF_FOOTER.
    rewrite (proj2 (Z.eqb_neq m (last st))) by assumption. cbn [negb].
    rewrite wrap64_small by lia. lia. }
  remember (remove_from_free_list st N) as s1 eqn:E1.
  remember (if N =? last s1 then set_last s1 m else s1) as s3 eqn:E3.
  destruct (remove_Links st (m :: l) l N HL Hincl Hnd HK HNl)
    as (K1 & Z1 & _).
  rewrite <- E1 in K1, Z1.
  destruct (Layout_without st (m :: l) l N HL Hincl Hnd) as [Hincl1 Hnd1].
  assert (M1 : same_markers st s1).
  { rewrite E1. apply remove_from_free_list_markers. }
  destruct (retarget_last s1 (N =? last s1) m)
    as (T3m & T3f & T3h & T3e & T3i & T3l).
  rewrite <- E3 in T3m, T3f, T3h, T3e, T3i, T3l.
  assert (Z3 : forall y, In y (m :: l) -> get_size s3 y = get_size st y).
  { intros y Hy. rewrite <- (Z1 y Hy). apply get_size_mem, T3m. }
  assert (K3 : Links s3 (without N l)).
  { apply (Links_frame s1); [exact T3f| |exact K1].
    intros y _. split; apply read_mem, T3m. }
  assert (L3 : Layout s3 (without N l)).
  { apply (Layout_incl s3 (m :: l)); [exact Hnd1|exact Hincl1|].
    apply (Layout_sizes st); assumption. }
  assert (M3 : heap s3 = heap st /\ heap_end s3 = heap_end st
               /\ first s3 = first st
               /\ last s3 = (if N =? last st then m else last st)).
  { destruct M1 as (Hh & He & Hl & Hf & _).
    rewrite T3h, T3e, T3i, T3l, Hl. auto. }
  pose proof (get_size_even st m) as Evm.
  pose proof (get_size_even st N) as EvN.
  assert (Hev : merged mod 2 = 0).
  { rewrite Emerged. clear - Evm EvN. Z.div_mod_to_equations. lia. }
  assert (Hrange : 16 <= merged /\ m + 16 + merged < two64
                   /\ m + 8 + merged = N + 8 + get_size st N).
  { clear - Emerged Fm FN HN. lia. }
  assert (EQ : Free st p = write_merged s3 m merged).
  { unfold Free. rewrite (proj2 (Z.eqb_neq p 0)) by exact Hp.
    cbv zeta. rewrite Em, EP, EN.
    rewrite (proj2 (Z.eqb_neq N NULL)) by (unfold NULL; lia).
    rewrite HfN. cbn [negb andb].
    rewrite HnoP.
    rewrite <- E1, <- E3.
    rewrite (Z3 m (or_introl eq_refl)), (Z3 N (Hincl N HNl)).
    f_equal. unfold SIZEOF_U64, SIZEOF_FOOTER.
    rewrite (wrap64_small (_ + _ + 2 * 8 + 2 * 8))
      by (clear - Emerged Hrange Fm; lia).
    rewrite wrap64_small by (clear - Emerged Hrange Fm; lia).
    clear - Emerged. lia. }
  assert (Hroom : forall y, In y (without N l) ->
            y + 16 + get_size s3 y <= m \/ m + 16 + merged <= y).
  { intros y Hy. pose proof (Hincl1 y Hy) as Hyb.
    apply in_without in Hy. destruct Hy as [Hy HyN].
    assert (Hym : y <> m) by (intros Hc; apply Hml; rewrite <- Hc; exact Hy).
    rewrite (Z3 y Hyb).
    pose proof (Layout_fit st (m :: l) y HL Hyb) as Fy.
    pose proof (Layout_pair st (m :: l) y m HL Hyb (or_introl eq_refl)) as P2.
    pose proof (Layout_pair st (m :: l) y N HL Hyb (Hincl N HNl)) as P3.
    clear - Fy P2 P3 HyN Hym Hrange HN Emerged Fm FN. lia. }
  destruct (write_merged_Links s3 (without N l) m merged L3 K3)
    as (K4 & R4P & R4F & S4); try (clear - Fm Hev Hrange; lia); [exact Hroom|].
  pose proof (write_merged_markers s3 m merged) as (Mh & Me & Ml & Mf & _).
  destruct M3 as (Mh3 & Me3 & Mf3 & Ml3).
  assert (HfootN : get_footer_from_header st N = m + 8 + merged).
  { unfold get_footer_from_header, SIZEOF_U64.
    rewrite wrap64_small by (clear - FN; lia). clear - Hrange. lia. }
  rewrite EQ. rewrite HfootN.
  split; [apply links_ok_Links; exact K4|].
  split; [congruence|].
  split; [exact R4P|].
  split; [exact R4F|].
  split.
  { unfold get_footer_from_header, SIZEOF_U64. rewrite S4.
    rewrite wrap64_small by (clear - Fm Hrange; lia). lia. }
  repeat split; congruence.
Qed.

(** X19: a block is released whose left neighbour (found through the footer word
    before the block) exists and is marked free and ends where the released
    block starts, while no free right neighbour is found.  The left
    neighbour, grown over the released block, is moved to the front of the
    free list; [last] is set to it when the released block was [last]; the
    merged usable size is the sum of the two usable sizes plus one
    header-footer overhead, stored with the free flag in the header of the
    left neighbour and in the footer of the released block. *)
Theorem Free_merges_left_neighbour :
  forall (st : state) (p : Z) (l : list Z),
    let m_block := head_addr p in
    let prev_block := left_neighbour st m_block in
    let next_block := right_neighbour st m_block in
    let merged :=
      get_size st prev_block + get_size st m_block
      + (SIZEOF_U64 + SIZEOF_FOOTER) in
    p <> NULL ->
    is_free st prev_block = true ->
    negb (next_block =? NULL) && is_free st next_block = false ->
    layout_ok st (m_block :: l) = true ->
    links_ok st l = true ->
    member prev_block l = true ->
    block_end st prev_block = m_block ->
    links_ok (Free st p) (prev_block :: without prev_block l) = true
    /\ last (Free st p) = (if m_block =? last st then prev_block else last st)
    /\ read (Free st p) prev_block = Z.lor merged 1
    /\ read (Free st p) (get_footer_from_header st m_block)
       = Z.lor merged 1
    /\ get_footer_from_header (Free st p) prev_block
       = get_footer_from_header st m_block
    /\ first (Free st p) = first st
    /\ heap (Free st p) = heap st
    /\ heap_end (Free st p) = heap_end st.
Proof.
  intros st p l m P N merged Hp HfP HnoN HL HK HPl Htag.
  assert (Em : head_addr p = m) by reflexivity.
  assert (EP : left_neighbour st m = P) by reflexivity.
  assert (EN : right_neighbour st m = N) by reflexivity.
  assert (Emerged : merged = get_size st P + get_size st m + 16)
    by reflexivity.
  clearbody merged N P m.
  apply layout_ok_Layout in HL. apply links_ok_Links in HK.
  apply member_In in HPl.
  assert (Hnd : NoDup (m :: l)) by apply HL.
  apply NoDup_cons_iff in Hnd as [Hml Hnd].
  assert (Hincl : incl l (m :: l)) by (intros y Hy; right; exact Hy).
  pose proof (Layout_fit st (m :: l) m HL (or_introl eq_refl)) as Fm.
  pose proof (Layout_fit st (m :: l) P HL (Hincl P HPl)) as FP.
  unfold block_end, SIZEOF_U64, SIZEOF_FOOTER in Htag.
  remember (remove_from_free_list st P) as s1 eqn:E1.
  remember (if m =? last s1 then set_last s1 P else s1) as s3 eqn:E3.
  destruct (remove_Links st (m :: l) l P HL Hincl Hnd HK HPl)
    as (K1 & Z1 & _).
  rewrite <- E1 in K1, Z1.
  destruct (Layout_without st (m :: l) l P HL Hincl Hnd) as [Hincl1 Hnd1].
  assert (M1 : same_markers st s1).
  { rewrite E1. apply remove_from_free_list_markers. }
  destruct (retarget_last s1 (m =? last s1) P)
    as (T3m & T3f & T3h & T3e & T3i & T3l).
  rewrite <- E3 in T3m, T3f, T3h, T3e, T3i, T3l.
  assert (Z3 : forall y, In y (m :: l) -> get_size s3 y = get_size st y).
  { intros y Hy. rewrite <- (Z1 y Hy). apply get_size_mem, T3m. }
  assert (K3 : Links s3 (without P l)).
  { apply (Links_frame s1); [exact T3f| |exact K1].
    intros y _. split; apply read_mem, T3m. }
  assert (L3 : Layout s3 (without P l)).
  { apply (Layout_incl s3 (m :: l)); [exact Hnd1|exact Hincl1|].
    apply (Layout_sizes st); assumption. }
  assert (M3 : heap s3 = heap st /\ heap_end s3 = heap_end st
               /\ first s3 = first st
               /\ last s3 = (if m =? last st then P else last st)).
  { destruct M1 as (Hh & He & Hl & Hf & _).
    rewrite T3h, T3e, T3i, T3l, Hl. auto. }
  pose proof (get_size_even st P) as EvP.
  pose proof (get_size_even st m) as Evm.
  assert (Hev : merged mod 2 = 0).
  { rewrite Emerged. clear - EvP Evm. Z.div_mod_to_equations. lia. }
  assert (Hrange : 16 <= merged /\ P + 16 + merged < two64
                   /\ P + 8 + merged = m + 8 + get_size st m).
  { clear - Emerged FP Fm Htag. lia. }
  assert (EQ : Free st p = write_merged s3 P merged).
  { unfold Free. rewrite (proj2 (Z.eqb_neq p 0)) by exact Hp.
    cbv zeta. rewrite Em, EP, EN.
    rewrite HnoN. cbn [andb].
    rewrite (proj2 (Z.eqb_neq P NULL)) by (unfold NULL; lia).
    rewrite HfP. cbn [negb andb].
    rewrite <- E1, <- E3.
    rewrite (Z3 P (Hincl P HPl)), (Z3 m (or_introl eq_refl)).
    f_equal. unfold SIZEOF_U64, SIZEOF_FOOTER.
    rewrite (wrap64_small (_ + _ + 2 * 8 + 2 * 8))
      by (clear - Emerged Hrange FP; lia).
    rewrite wrap64_small by (clear - Emerged Hrange FP; lia).
    clear - Emerged. lia. }
  assert (Hroom : forall y, In y (without P l) ->
            y + 16 + get_size s3 y <= P \/ P + 16 + merged <= y).
  { intros y Hy. pose proof (Hincl1 y Hy) as Hyb.
    apply in_without in Hy. destruct Hy as [Hy HyP].
    assert (Hym : y <> m) by (intros Hc; apply Hml; rewrite <- Hc; exact Hy).
    rewrite (Z3 y Hyb).
    pose proof (Layout_fit st (m :: l) y HL Hyb) as Fy.
    pose proof (Layout_pair st (m :: l) y P HL Hyb (Hincl P HPl)) as P1.
    pose proof (Layout_pair st (m :: l) y m HL Hyb (or_introl eq_refl)) as P2.
    clear - Fy P1 P2 HyP Hym Hrange Htag Emerged FP Fm. lia. }
  destruct (write_merged_Links s3 (without P l) P merged L3 K3)
    as (K4 & R4P & R4F & S4); try (clear - FP Hev Hrange; lia); [exact Hroom|].
  pose proof (write_merged_markers s3 P merged) as (Mh & Me & Ml & Mf & _).
  destruct M3 as (Mh3 & Me3 & Mf3 & Ml3).
  assert (Hfootm : get_footer_from_header st m = P + 8 + merged).
  { unfold get_footer_from_header, SIZEOF_U64.
    rewrite wrap64_small by (clear - Fm; lia). clear - Hrange. lia. }
  rewrite EQ. rewrite Hfootm.
  split; [apply links_ok_Links; exact K4|].
  split; [congruence|].
  split; [exact R4P|].
  split; [exact R4F|].
  split.
  { unfold get_footer_from_header, SIZEOF_U64. rewrite S4.
    rewrite wrap64_small by (clear - FP Hrange; lia). lia. }
  repeat split; congruence.
Qed.

Lemma lor_1_odd w : 0 <= w -> (Z.land (Z.lor w 1) 1 =? 1) = true.
Proof.
  intros Hw. apply Z.eqb_eq.
  assert (0 <= Z.lor w 1) by (apply Z.lor_nonneg; lia).
  rewrite land_1 by assumption. rewrite lor_1 by assumption.
  Z.div_mod_to_equations. lia.
Qed.

(** X20: a block is released and no free neighbour is found on either side.  The
    block keeps its size, is marked free in header and footer and is put in
    front of the free list; no marker changes. *)
Theorem Free_without_free_neighbour :
  forall (st : state) (p : Z) (l : list Z),
    let m_block := head_addr p in
    let prev_block := left_neighbour st m_block in
    let next_block := right_neighbour st m_block in
    p <> NULL ->
    negb (prev_block =? NULL) && is_free st prev_block = false ->
    negb (next_block =? NULL) && is_free st next_block = false ->
    layout_ok st (m_block :: l) = true ->
    links_ok st l = true ->
    links_ok (Free st p) (m_block :: l) = true
    /\ is_free (Free st p) m_block = true
    /\ is_free (Free st p) (get_footer_from_header st m_block) = true
    /\ (forall y, In y (m_block :: l) ->
          get_size (Free st p) y = get_size st y)
    /\ same_markers st (Free st p).
Proof.
  intros st p l m P N Hp HnoP HnoN HL HK.
  assert (Em : head_addr p = m) by reflexivity.
  assert (EP : left_neighbour st m = P) by reflexivity.
  assert (EN : right_neighbour st m = N) by reflexivity.
  clearbody N P m.
  apply layout_ok_Layout in HL. apply links_ok_Links in HK.
  pose proof (Layout_fit st (m :: l) m HL (or_introl eq_refl)) as Fm.
  remember (set_free st m) as t1 eqn:E1.
  assert (R1 : forall a, 0 <= a <= two64 - 8 -> cell_ok m a ->
                 read t1 a = if a =? m then Z.lor (read st m) 1
                             else read st a).
  { intros a Ha Hok. rewrite E1. apply read_set_free; [lia|exact Ha|exact Hok]. }
  assert (Hfoot : get_footer_from_header t1 m = m + 8 + get_size st m).
  { unfold get_footer_from_header, get_size at 1, SIZEOF_U64.
    rewrite R1 by (unfold cell_ok; lia). rewrite Z.eqb_refl.
    rewrite get_size_set by apply read_range. fold (get_size st m).
    rewrite wrap64_small by lia. lia. }
  assert (HfootS : get_footer_from_header st m = m + 8 + get_size st m).
  { unfold get_footer_from_header, SIZEOF_U64.
    rewrite wrap64_small by lia. lia. }
  remember (set_free t1 (m + 8 + get_size st m)) as t2 eqn:E2.
  assert (R2 : forall a, 0 <= a <= two64 - 8 ->
                 cell_ok m a -> cell_ok (m + 8 + get_size st m) a ->
                 read t2 a = if a =? m + 8 + get_size st m
                             then Z.lor (read st a) 1
                             else if a =? m then Z.lor (read st m) 1
                             else read st a).
  { intros a Ha Hok1 Hok2. rewrite E2.
    rewrite read_set_free by (try assumption; lia).
    destruct (Z.eqb_spec a (m + 8 + get_size st m)) as [Haf|Haf].
    - subst a. rewrite R1 by (unfold cell_ok; lia). decide_eqb. reflexivity.
    - apply R1; assumption. }
  assert (EQ : Free st p = add_to_free_list t2 m).
  { unfold Free. rewrite (proj2 (Z.eqb_neq p 0)) by exact Hp.
    cbv zeta. rewrite Em, EP, EN.
    rewrite HnoN. cbn [andb]. rewrite HnoP.
    rewrite <- E1, Hfoot, <- E2. reflexivity. }
  assert (Near : forall y, In y l ->
            (0 < y /\ 16 <= get_size st y /\ y + 16 + get_size st y < two64)
            /\ (y + 16 + get_size st y <= m
                \/ m + 16 + get_size st m <= y)).
  { intros y Hy. split; [apply (Layout_fit st (m :: l) y HL (or_intror Hy))|].
    destruct (Layout_pair st (m :: l) y m HL (or_intror Hy) (or_introl eq_refl))
      as [Heq|Hd]; [|exact Hd].
    exfalso. destruct HL as (Hnd & _). apply NoDup_cons_iff in Hnd.
    apply (proj1 Hnd). rewrite <- Heq. exact Hy. }
  assert (Z2 : forall y, In y (m :: l) -> get_size t2 y = get_size st y).
  { intros y [Hy|Hy]; unfold get_size at 1.
    - subst y. rewrite R2 by (unfold cell_ok; lia). decide_eqb.
      apply get_size_set, read_range.
    - destruct (Near y Hy) as [Fy Py].
      rewrite R2 by (clear - Fy Py Fm; unfold cell_ok; lia).
      clear - Fy Py Fm. decide_eqb. reflexivity. }
  assert (L2 : Layout t2 (m :: l)) by (apply (Layout_sizes st); assumption).
  assert (K2 : Links t2 l).
  { apply (Links_frame st); [rewrite E2, E1; reflexivity| |exact HK].
    intros y Hy. destruct (Near y Hy) as [Fy Py].
    rewrite next_field_eq, prev_field_eq by (clear - Fy; lia).
    rewrite !R2 by (clear - Fy Py Fm; unfold cell_ok; lia).
    clear - Fy Py Fm. decide_eqb. split; reflexivity. }
  destruct (add_Links t2 l m L2 K2) as (K3 & Z3 & R3m & R3f).
  rewrite (Z2 m (or_introl eq_refl)) in R3f.
  rewrite EQ, HfootS.
  split; [apply links_ok_Links; exact K3|].
  split.
  { unfold is_free. rewrite R3m. apply lor_1_odd, read_range. }
  split.
  { unfold is_free. rewrite R3f. apply lor_1_odd, read_range. }
  split.
  { intros y Hy. rewrite (Z3 y Hy). apply Z2, Hy. }
  eapply same_markers_trans; [|apply add_to_free_list_markers].
  rewrite E2, E1. repeat markers_step.
Qed.

(** ** Size and flag in one word *)

Lemma land_clear_even w :
  0 <= w < two64 -> (Z.land (Z.land w MASK_M2) 1 =? 1) = false.
Proof.
  intros Hw. apply Z.eqb_neq.
  rewrite land_MASK_M2 by assumption.
  rewrite land_1 by (Z.div_mod_to_equations; lia).
  Z.div_mod_to_equations. lia.
Qed.

(** X1: [set_free] sets the flag of a word and leaves its size bits alone,
    whatever the word and wherever it lies. *)
Theorem set_free_keeps_size :
  forall (st : state) (block : Z),
    is_free (set_free st block) block = true
    /\ get_size (set_free st block) block = get_size st block.
Proof.
  intros st block. unfold is_free, get_size, set_free.
  rewrite read_write_same, wrap64_set by apply read_range.
  split; [apply lor_1_odd, read_range|apply get_size_set, read_range].
Qed.

(** X2: [set_used] clears the flag of a word and leaves its size bits alone. *)
Theorem set_used_keeps_size :
  forall (st : state) (block : Z),
    is_free (set_used st block) block = false
    /\ get_size (set_used st block) block = get_size st block.
Proof.
  intros st block. unfold is_free, get_size, set_used.
  rewrite read_write_same, wrap64_clear by apply read_range.
  split; [apply land_clear_even, read_range|apply get_size_clear].
Qed.

(** ** Address arithmetic *)

(** X3: [head_addr] and [data_addr] are inverse to each other on addresses. *)
Theorem head_addr_data_addr :
  forall a : Z, 0 <= a < two64 ->
    head_addr (data_addr a) = a /\ data_addr (head_addr a) = a.
Proof.
  intros a Ha. unfold head_addr, data_addr, wrap64, SIZEOF_U64.
  rewrite Zminus_mod_idemp_l, Zplus_mod_idemp_l.
  replace (a + 8 - 8) with a by lia. replace (a - 8 + 8) with a by lia.
  unfold two64 in *. rewrite Z.mod_small by lia. auto.
Qed.

Lemma head_addr_data_addr_witness :
  0 <= 65536 < two64
  /\ head_addr (data_addr 65536) = 65536
  /\ data_addr (head_addr 65536) = 65536.
Proof.
  split; [unfold two64; lia|]. apply (head_addr_data_addr 65536).
  unfold two64. lia.
Defined.

(** X4: when the footer of a block holds the size its header holds, the header
    is found back from the footer. *)
Theorem header_from_footer_from_header :
  forall (st : state) (header : Z),
    0 <= header ->
    header + get_size st header + 8 < two64 ->
    get_size st (get_footer_from_header st header) = get_size st header ->
    get_header_from_footer st (get_footer_from_header st header) = header.
Proof.
  intros st header H0 Hend Htag. unfold get_header_from_footer.
  rewrite Htag. unfold get_footer_from_header, SIZEOF_U64.
  pose proof (get_size_range st header) as Hs.
  rewrite (wrap64_small (header + _ + 8)) by lia.
  rewrite wrap64_small by lia. lia.
Qed.

Lemma header_from_footer_from_header_witness :
  let st := write (write (fresh []) 65536 48) 65592 49 in
  0 <= 65536
  /\ 65536 + get_size st 65536 + 8 < two64
  /\ get_size st (get_footer_from_header st 65536) = get_size st 65536
  /\ get_header_from_footer st (get_footer_from_header st 65536) = 65536.
Proof.
  cbv zeta.
  split; [lia|]. split; [vm_compute; reflexivity|].
  split; [vm_compute; reflexivity|].
  apply (header_from_footer_from_header
           (write (write (fresh []) 65536 48) 65592 49) 65536).
  - lia.
  - vm_compute. reflexivity.
  - vm_compute. reflexivity.
Defined.

(** ** Rounding of the requested size *)

Lemma land_MASK_M8 w : 0 <= w < two64 -> Z.land w MASK_M8 = w - w mod 8.
Proof.
  intros Hw.
  assert (Hm : MASK_M8 = Z.shiftl (Z.ones 61) 3) by reflexivity.
  rewrite Hm. apply Z.bits_inj'. intros n Hn.
  rewrite Z.land_spec, Z.shiftl_spec by assumption.
  replace (w - w mod 8) with (Z.shiftl (Z.shiftr w 3) 3).
  2:{ rewrite Z.shiftl_mul_pow2, Z.shiftr_div_pow2 by lia.
      change (2 ^ 3) with 8. pose proof (Z.div_mod w 8 ltac:(lia)). lia. }
  rewrite Z.shiftl_spec by assumption.
  destruct (Z.lt_ge_cases n 3) as [Hn3|Hn3].
  - rewrite !(Z.testbit_neg_r _ (n - 3)) by lia. apply andb_false_r.
  - rewrite Z.shiftr_spec by lia. replace (n - 3 + 3) with n by lia.
    destruct (Z.lt_ge_cases n 64) as [Hlt|Hge].
    + rewrite Z.ones_spec_low by lia. apply andb_true_r.
    + rewrite Z.ones_spec_high by lia. rewrite andb_false_r.
      symmetry. destruct (Z.eq_dec w 0) as [->|Hw0].
      * apply Z.testbit_0_l.
      * apply Z.bits_above_log2; [lia|].
        apply Z.log2_lt_pow2; [lia|].
        apply Z.lt_le_trans with (2 ^ 64); [exact (proj2 Hw)|].
        apply Z.pow_le_mono_r; lia.
Qed.

Lemma request_size_bounds :
  forall s : Z, request_size s mod 8 = 0 /\ 0 <= request_size s < two32.
Proof.
  intros s. unfold request_size, round.
  set (s' := if s <? MINIMUM_ALLOC_SIZE then MINIMUM_ALLOC_SIZE else s).
  pose proof (wrap64_range (s' + 7)) as Hr.
  rewrite land_MASK_M8 by exact Hr.
  generalize dependent (wrap64 (s' + 7)). intros w Hw.
  unfold two32. split; [|apply Z.mod_pos_bound; lia].
  Z.div_mod_to_equations. lia.
Qed.

(** X5: whatever is requested, [Malloc] works with a size that is a multiple
    of 8 and fits in 32 bits. *)
Theorem request_size_aligned :
  forall s : Z, request_size s mod 8 = 0 /\ 0 <= request_size s < two32.
Proof. exact request_size_bounds. Qed.

(** X6: for requests of at most [2^32 - 8] bytes, it is the request rounded up
    to a multiple of 8 and raised to at least 16. *)
Theorem request_size_small :
  forall s : Z, 0 <= s <= two32 - 8 ->
    request_size s = promised_size s
    /\ s <= request_size s /\ MINIMUM_ALLOC_SIZE <= request_size s.
Proof.
  intros s Hs. unfold request_size, round, promised_size, round_up_8,
    MINIMUM_ALLOC_SIZE, two32 in *.
  assert (Hcalc : forall t, 16 <= t <= 4294967288 ->
            Z.land (wrap64 (t + 7)) MASK_M8 mod 4294967296
            = 8 * ((t + 7) / 8)).
  { intros t Ht. rewrite wrap64_small by (unfold two64; lia).
    rewrite land_MASK_M8 by (unfold two64; lia).
    rewrite Z.mod_small; Z.div_mod_to_equations; lia. }
  destruct (Z.ltb_spec s 16) as [Hlt|Hge].
  - rewrite Hcalc by lia. change (8 * ((16 + 7) / 8)) with 16.
    split; [|lia]. Z.div_mod_to_equations. lia.
  - rewrite Hcalc by lia. split; [|Z.div_mod_to_equations; lia].
    Z.div_mod_to_equations. lia.
Qed.

Lemma request_size_small_witness :
  0 <= 21 <= two32 - 8
  /\ request_size 21 = promised_size 21
  /\ 21 <= request_size 21 /\ MINIMUM_ALLOC_SIZE <= request_size 21.
Proof.
  split; [unfold two32; lia|]. apply (request_size_small 21).
  unfold two32. lia.
Defined.

(** ** The block [Malloc] hands out *)

Lemma read_wrap64 st a : read st (wrap64 a) = read st a.
Proof.
  unfold read, load64, load8.
  assert (H : forall i, wrap64 (wrap64 a + i) = wrap64 (a + i)).
  { intros i. unfold wrap64. apply Zplus_mod_idemp_l. }
  rewrite !H. rewrite wrap64_idem. reflexivity.
Qed.

Lemma wrap64_sub_r a b : wrap64 (a - wrap64 b) = wrap64 (a - b).
Proof. unfold wrap64. apply Zminus_mod_idemp_r. Qed.

(** The last three statements of both paths of [Malloc]: the size is written
    to the header and the flag is cleared in header and footer. *)
Lemma header_after_marking st block size :
  0 <= size < two32 -> size mod 8 = 0 ->
  read (set_used (set_used (write st block size) block)
          (get_footer_from_header (set_used (write st block size) block)
             block)) block = size.
Proof.
  intros Hs H8.
  assert (Hev : size mod 2 = 0) by (Z.div_mod_to_equations; lia).
  assert (Hr : read (set_used (write st block size) block) block = size).
  { unfold set_used at 1. rewrite read_write_same.
    rewrite read_write_same.
    rewrite (wrap64_small size) by (unfold two32, two64 in *; lia).
    rewrite wrap64_clear by (unfold two32, two64 in *; lia).
    rewrite land_MASK_M2 by (unfold two32, two64 in *; lia). lia. }
  unfold set_used at 1. rewrite read_write_apart; [exact Hr|].
  unfold cells_apart, get_footer_from_header, get_size, SIZEOF_U64.
  rewrite Hr. rewrite land_MASK_M2 by (unfold two32, two64 in *; lia).
  rewrite Hev, Z.sub_0_r, wrap64_sub_r.
  replace (block - (block + size + 8)) with (- size - 8) by lia.
  unfold wrap64.
  replace (- size - 8) with (two64 - size - 8 + (-1) * two64) by lia.
  rewrite Z.mod_add by (unfold two64; lia).
  rewrite Z.mod_small; unfold two32, two64 in *; lia.
Qed.

(** The assignments to [first] and [last] that end the carving path. *)
Lemma carve_markers st next_block :
  mem (set_last (if first st =? NULL then set_first st next_block else st)
         next_block) = mem st.
Proof. destruct (first st =? NULL); reflexivity. Qed.

Lemma Malloc_found_header st m_block size :
  0 <= size < two32 -> size mod 8 = 0 ->
  read (fst (Malloc_found st m_block size)) m_block = size.
Proof.
  intros Hs H8. unfold Malloc_found. cbv zeta. cbn [fst].
  apply header_after_marking; assumption.
Qed.

Lemma Malloc_carve_header st size :
  0 <= size < two32 -> size mod 8 = 0 ->
  snd (grow_heap (script (os st)) st (next_available_block st) size) = true ->
  read (fst (Malloc_carve st size)) (next_available_block st) = size
  /\ snd (Malloc_carve st size) = data_addr (next_available_block st)
  /\ last (fst (Malloc_carve st size)) = next_available_block st.
Proof.
  intros Hs H8 Hok. unfold Malloc_carve. cbv zeta.
  destruct (grow_heap (script (os st)) st (next_available_block st) size)
    as [st1 ok].
  cbn [snd] in Hok. subst ok. cbn [fst snd].
  split; [|split; reflexivity].
  etransitivity;
    [|exact (header_after_marking st1 (next_available_block st) size Hs H8)].
  apply read_mem. apply carve_markers.
Qed.

(** X7: every pointer [Malloc] returns, other than [NULL], points behind a
    header that holds the size [Malloc] worked with, marked used. *)
Theorem Malloc_block_header :
  forall (fuel : nat) (st st' : state) (size p : Z),
    Malloc fuel st size = Some (st', p) ->
    p <> NULL ->
    get_size st' (head_addr p) = request_size size
    /\ is_free st' (head_addr p) = false.
Proof.
  intros fuel st st' size p HM Hp.
  destruct (request_size_bounds size) as [H8 Hr].
  assert (Hev : request_size size mod 2 = 0)
    by (Z.div_mod_to_equations; lia).
  assert (Hgoal : forall b, read st' b = request_size size -> p = data_addr b ->
            get_size st' (head_addr p) = request_size size
            /\ is_free st' (head_addr p) = false).
  { intros b Hb ->.
    assert (Ha : read st' (head_addr (data_addr b)) = request_size size).
    { unfold head_addr, data_addr, SIZEOF_U64.
      rewrite wrap64_sub_l, read_wrap64.
      replace (b + 8 - 8) with b by lia. exact Hb. }
    unfold get_size, is_free. rewrite Ha.
    rewrite land_MASK_M2 by (unfold two32, two64 in *; lia).
    rewrite land_1 by lia. rewrite Hev.
    split; [lia|reflexivity]. }
  unfold Malloc in HM.
  remember (if heap st =? NEG1 then init st else st) as st0 eqn:E0.
  cbv zeta in HM.
  destruct ((heap st0 =? NEG1) || (heap_end st0 =? NEG1)).
  - injection HM as _ HM. exfalso. apply Hp. symmetry. exact HM.
  - destruct (first_fit fuel st0 (request_size size) (free_list st0))
      as [m|]; [|discriminate HM].
    destruct (m =? NULL).
    + assert (HM' : Malloc_carve st0 (request_size size) = (st', p))
        by congruence.
      clear HM. rename HM' into HM.
      destruct (snd (grow_heap (script (os st0)) st0
                       (next_available_block st0) (request_size size)))
        eqn:Hok.
      * destruct (Malloc_carve_header st0 (request_size size) Hr H8 Hok)
          as (Hrd & Hptr & _).
        rewrite HM in Hrd, Hptr. cbn [fst snd] in Hrd, Hptr.
        apply (Hgoal (next_available_block st0)); assumption.
      * exfalso. apply Hp.
        unfold Malloc_carve in HM. cbv zeta in HM.
        destruct (grow_heap (script (os st0)) st0
                    (next_available_block st0) (request_size size))
          as [st1 ok].
        cbn [snd] in Hok. subst ok. congruence.
    + assert (HM' : Malloc_found st0 m (request_size size) = (st', p))
        by congruence.
      clear HM. rename HM' into HM.
      pose proof (Malloc_found_header st0 m (request_size size) Hr H8) as Hrd.
      pose proof (Malloc_found_pointer st0 m (request_size size)) as Hptr.
      rewrite HM in Hrd, Hptr. cbn [fst snd] in Hrd, Hptr.
      apply (Hgoal m); assumption.
Qed.

Lemma Malloc_block_header_witness :
  Malloc 1 (fresh [true]) 100
  = Some (final_state 1 (fresh [true]) [CallMalloc 100], 65544)
  /\ 65544 <> NULL
  /\ get_size (final_state 1 (fresh [true]) [CallMalloc 100])
       (head_addr 65544) = request_size 100
  /\ is_free (final_state 1 (fresh [true]) [CallMalloc 100])
       (head_addr 65544) = false.
Proof.
  split; [vm_compute; reflexivity|]. split; [discriminate|].
  apply (Malloc_block_header 1 (fresh [true])
           (final_state 1 (fresh [true]) [CallMalloc 100]) 100 65544).
  - vm_compute. reflexivity.
  - discriminate.
Defined.

(** ** Carving and growing *)

(** X8: when no free block serves the request and the heap can be grown far
    enough, the block is carved at the next available address, and the next
    available address moves just behind its footer: blocks carved one after
    the other lie back to back. *)
Theorem Malloc_carves_back_to_back :
  forall (fuel : nat) (st : state) (size : Z),
    heap st <> NEG1 ->
    heap_end st <> NEG1 ->
    first_fit fuel st (request_size size) (free_list st) = Some NULL ->
    snd (grow_heap (script (os st)) st (next_available_block st)
           (request_size size)) = true ->
    next_available_block st <> NULL ->
    exists st',
      Malloc fuel st size = Some (st', data_addr (next_available_block st))
      /\ next_available_block st'
         = wrap64 (next_available_block st + SIZEOF_U64 + request_size size
                   + SIZEOF_FOOTER).
Proof.
  intros fuel st size Hheap Hend Hfit Hok Hnb.
  apply Z.eqb_neq in Hheap, Hend, Hnb.
  destruct (request_size_bounds size) as [H8 Hr].
  destruct (Malloc_carve_header st (request_size size) Hr H8 Hok)
    as (Hrd & Hptr & Hlast).
  exists (fst (Malloc_carve st (request_size size))).
  split.
  - unfold Malloc. rewrite Hheap. cbv iota zeta. rewrite Hheap, Hend.
    cbv [orb]. rewrite Hfit. change (NULL =? NULL) with true. cbv iota.
    rewrite <- Hptr, <- surjective_pairing. reflexivity.
  - unfold next_available_block at 1. rewrite Hlast, Hnb.
    unfold get_size. rewrite Hrd.
    rewrite land_MASK_M2 by (unfold two32, two64 in *; lia).
    replace (request_size size mod 2) with 0
      by (Z.div_mod_to_equations; lia).
    rewrite Z.sub_0_r. reflexivity.
Qed.

Lemma Malloc_carves_back_to_back_witness :
  let st := final_state 1 (fresh [true]) [CallMalloc 40] in
  heap st <> NEG1
  /\ heap_end st <> NEG1
  /\ first_fit 1 st (request_size 100) (free_list st) = Some NULL
  /\ snd (grow_heap (script (os st)) st (next_available_block st)
            (request_size 100)) = true
  /\ next_available_block st <> NULL
  /\ exists st',
      Malloc 1 st 100 = Some (st', data_addr (next_available_block st))
      /\ next_available_block st'
         = wrap64 (next_available_block st + SIZEOF_U64 + request_size 100
                   + SIZEOF_FOOTER).
Proof.
  cbv zeta.
  split; [vm_compute; discriminate|].
  split; [vm_compute; discriminate|].
  split; [vm_compute; reflexivity|].
  split; [vm_compute; reflexivity|].
  split; [vm_compute; discriminate|].
  apply (Malloc_carves_back_to_back 1
           (final_state 1 (fresh [true]) [CallMalloc 40]) 100).
  - vm_compute. discriminate.
  - vm_compute. discriminate.
  - vm_compute. reflexivity.
  - vm_compute. reflexivity.
  - vm_compute. discriminate.
Defined.

(** X9: the growth loop changes [heap_end] only by whole increments, and when it
    ends without failure the block to carve fits below [heap_end]. *)
Theorem grow_heap_result :
  forall (answers : list bool) (st : state) (next_block size : Z),
    let st' := fst (grow_heap answers st next_block size) in
    (exists k : nat,
        heap_end st'
        = Nat.iter k (fun e => wrap64 (e + ALLOC_SIZE)) (heap_end st))
    /\ (snd (grow_heap answers st next_block size) = true ->
        wrap64 (next_block + SIZEOF_U64 + size + SIZEOF_FOOTER)
        <= heap_end st').
Proof.
  induction answers as [|b answers IH]; intros st next_block size; cbv zeta;
    cbn [grow_heap];
    (destruct (Z.ltb_spec (heap_end st)
                 (wrap64 (next_block + SIZEOF_U64 + size + SIZEOF_FOOTER)))
       as [Hlt|Hge];
     [|cbn [fst snd]; split; [exists O; reflexivity|intros _; exact Hge]]);
    unfold Sbrk; destruct (sbrk (os st) ALLOC_SIZE) as [o r];
    destruct (negb (r =? NEG1)); cbn [Z.eqb fst snd];
    try (split; [exists O; reflexivity|discriminate]).
  - split; [exists 1%nat; reflexivity|discriminate].
  - specialize (IH (set_heap_end (set_os st o)
                      (wrap64 (heap_end st + ALLOC_SIZE)))
                   next_block size).
    cbv zeta in IH. destruct IH as [(k & Hiter) Hfit].
    split; [|exact Hfit].
    exists (S k). rewrite Hiter. cbn [heap_end set_heap_end].
    rewrite Nat.iter_succ_r. reflexivity.
Qed.

(** X10: when the system grants the next [n] requests and [n] increments make
    room for the block, the growth loop ends without failure. *)
Theorem grow_heap_succeeds_when_granted :
  forall (n : nat) (st : state) (next_block size : Z),
    firstn n (script (os st)) = repeat true n ->
    0 <= brk (os st) ->
    brk (os st) + ALLOC_SIZE * Z.of_nat n < two64 ->
    0 <= heap_end st ->
    heap_end st + ALLOC_SIZE * Z.of_nat n < two64 ->
    wrap64 (next_block + SIZEOF_U64 + size + SIZEOF_FOOTER)
    <= heap_end st + ALLOC_SIZE * Z.of_nat n ->
    snd (grow_heap (script (os st)) st next_block size) = true.
Proof.
  induction n as [|n IH]; intros st next_block size Hgr Hb0 Hb He0 He Hfit.
  - assert (Hge : (heap_end st
                   <? wrap64 (next_block + SIZEOF_U64 + size + SIZEOF_FOOTER))
                  = false) by (apply Z.ltb_ge; lia).
    destruct (script (os st)); cbn [grow_heap]; rewrite Hge; reflexivity.
  - destruct (script (os st)) as [|b rest] eqn:Hs; [discriminate Hgr|].
    cbn [firstn repeat] in Hgr. injection Hgr as Hb1 Hgr. subst b.
    cbn [grow_heap].
    destruct (heap_end st
              <? wrap64 (next_block + SIZEOF_U64 + size + SIZEOF_FOOTER));
      [|reflexivity].
    unfold Sbrk, sbrk. rewrite Hs. unfold ALLOC_SIZE in *.
    change (1024 =? 0) with false. cbv iota.
    assert (Hr : negb (brk (os st) =? NEG1) = true).
    { apply negb_true_iff, Z.eqb_neq. unfold NEG1, wrap64, two64 in *.
      change ((-1) mod 18446744073709551616) with 18446744073709551615.
      lia. }
    rewrite Hr. change (0 =? 1) with false. cbv iota.
    set (st1 := set_heap_end _ _).
    change rest with (script (os st1)) at 1.
    assert (Hwb : wrap64 (brk (os st) + 1024) = brk (os st) + 1024)
      by (apply wrap64_small; unfold two64 in *; lia).
    assert (Hwe : wrap64 (heap_end st + 1024) = heap_end st + 1024)
      by (apply wrap64_small; unfold two64 in *; lia).
    apply IH; unfold st1; cbn [os script brk heap_end set_heap_end set_os];
      rewrite ?Hwb, ?Hwe; try exact Hgr; lia.
Qed.

Lemma grow_heap_succeeds_when_granted_witness :
  let st := final_state 1 (fresh [true; true; true; false])
              [CallMalloc 16] in
  firstn 2 (script (os st)) = repeat true 2
  /\ 0 <= brk (os st)
  /\ brk (os st) + ALLOC_SIZE * Z.of_nat 2 < two64
  /\ 0 <= heap_end st
  /\ heap_end st + ALLOC_SIZE * Z.of_nat 2 < two64
  /\ wrap64 (next_available_block st + SIZEOF_U64 + 2000 + SIZEOF_FOOTER)
     <= heap_end st + ALLOC_SIZE * Z.of_nat 2
  /\ snd (grow_heap (script (os st)) st (next_available_block st) 2000)
     = true.
Proof.
  cbv zeta.
  split; [vm_compute; reflexivity|].
  split; [vm_compute; discriminate|].
  split; [vm_compute; reflexivity|].
  split; [vm_compute; discriminate|].
  split; [vm_compute; reflexivity|].
  split; [vm_compute; discriminate|].
  apply (grow_heap_succeeds_when_granted 2
           (final_state 1 (fresh [true; true; true; false]) [CallMalloc 16])).
  - vm_compute. reflexivity.
  - vm_compute. discriminate.
  - vm_compute. reflexivity.
  - vm_compute. discriminate.
  - vm_compute. reflexivity.
  - vm_compute. discriminate.
Defined.

(** ** The search of the free list *)

Lemma first_fit_along_walk :
  forall (fuel : nat) (st : state) (size block : Z) (l : list Z),
    free_list_walk fuel st block = Some l ->
    first_fit fuel st size block
    = Some (match find (fun b => size <=? get_size st b) l with
            | Some b => b
            | None => NULL
            end).
Proof.
  induction fuel as [|fuel IH]; intros st size block l Hwalk;
    [discriminate Hwalk|].
  cbn [free_list_walk first_fit] in *.
  destruct (block =? NULL).
  - injection Hwalk as <-. reflexivity.
  - destruct (free_list_walk fuel st (read st (next_field block)))
      as [l'|] eqn:Hl'; [|discriminate Hwalk].
    injection Hwalk as <-. cbn [find].
    destruct (size <=? get_size st block); [reflexivity|].
    apply IH. exact Hl'.
Qed.

(** X12: the search returns the first block along the [next] links whose
    size suffices, and [NULL] when there is none. *)
Theorem first_fit_finds_first :
  forall (fuel : nat) (st : state) (size block : Z) (l : list Z),
    free_list_walk fuel st block = Some l ->
    first_fit fuel st size block
    = Some (match find (fun b => size <=? get_size st b) l with
            | Some b => b
            | None => NULL
            end).
Proof. exact first_fit_along_walk. Qed.

Lemma first_fit_finds_first_witness :
  let st := final_state 1 (fresh [true])
              [CallMalloc 16; CallMalloc 16; CallMalloc 40; CallMalloc 16;
               CallFree 2; CallFree 0] in
  free_list_walk 3 st (free_list st) = Some [65536; 65600]
  /\ first_fit 3 st 24 (free_list st)
     = Some (match find (fun b => 24 <=? get_size st b) [65536; 65600] with
             | Some b => b
             | None => NULL
             end).
Proof.
  cbv zeta. split; [vm_compute; reflexivity|].
  apply (first_fit_finds_first 3
           (final_state 1 (fresh [true])
              [CallMalloc 16; CallMalloc 16; CallMalloc 40; CallMalloc 16;
               CallFree 2; CallFree 0]) 24).
  vm_compute. reflexivity.
Defined.

(** ** What [Free] and the bootstrap leave alone *)

Lemma same_bounds_refl st : same_bounds st st.
Proof. repeat split. Qed.

Lemma same_bounds_trans st1 st2 st3 :
  same_bounds st1 st2 -> same_bounds st2 st3 -> same_bounds st1 st3.
Proof.
  unfold same_bounds. intros (?&?&?&?) (?&?&?&?). repeat split; congruence.
Qed.

Lemma markers_bounds st st' : same_markers st st' -> same_bounds st st'.
Proof. unfold same_markers, same_bounds. intros (?&?&?&?&?). auto. Qed.

Lemma set_last_bounds st v : same_bounds st (set_last st v).
Proof. repeat split. Qed.

Ltac bounds_step :=
  lazymatch goal with
  | |- same_bounds ?s ?s => apply same_bounds_refl
  | |- same_bounds _ (if ?c then _ else _) => destruct c
  | |- same_bounds _ (set_last _ _) =>
      eapply same_bounds_trans; [|apply set_last_bounds]
  | |- same_bounds _ (write_merged _ _ _) =>
      eapply same_bounds_trans;
      [|apply markers_bounds, write_merged_markers]
  | |- same_bounds _ (remove_from_free_list _ _) =>
      eapply same_bounds_trans;
      [|apply markers_bounds, remove_from_free_list_markers]
  | |- same_bounds _ (add_to_free_list _ _) =>
      eapply same_bounds_trans;
      [|apply markers_bounds, add_to_free_list_markers]
  | |- same_bounds _ (set_free _ _) =>
      eapply same_bounds_trans; [|apply markers_bounds, set_free_markers]
  end.

(** X21: whatever pointer it is given, [Free] leaves the heap bounds and [first]
    as they are and does not call the system. *)
Theorem Free_keeps_heap_bounds :
  forall (st : state) (p : Z),
    heap (Free st p) = heap st
    /\ heap_end (Free st p) = heap_end st
    /\ first (Free st p) = first st
    /\ os (Free st p) = os st.
Proof.
  intros st p. change (same_bounds st (Free st p)).
  unfold Free. cbv zeta. repeat bounds_step.
Qed.

Lemma carve_fields st next_block :
  let st' := set_last (if first st =? NULL then set_first st next_block
                       else st) next_block in
  heap st' = heap st /\ heap_end st' = heap_end st /\ os st' = os st
  /\ free_list st' = free_list st /\ last st' = next_block
  /\ first st' = (if first st =? NULL then next_block else first st).
Proof. cbv zeta. destruct (first st =? NULL); repeat split. Qed.

Lemma marking_fields st block size :
  let st' := set_used (set_used (write st block size) block)
               (get_footer_from_header
                  (set_used (write st block size) block) block) in
  same_markers st st' /\ free_list st' = free_list st.
Proof. cbv zeta. split; [repeat markers_step|reflexivity]. Qed.

(** X11: the first call of [Malloc] in a program, when the system grants the
    initial request and the block fits in the initial heap: the heap is set
    up at the break, the block is carved at its start, and it becomes both
    [first] and [last]. *)
Theorem first_Malloc_sets_up_heap :
  forall (fuel : nat) (base size : Z) (answers : list bool),
    0 < base ->
    base + INIIAL_HEAP_SIZE < NEG1 ->
    request_size size + SIZEOF_U64 + SIZEOF_FOOTER <= INIIAL_HEAP_SIZE ->
    exists st',
      Malloc (S fuel) (start_state base (true :: answers)) size
      = Some (st', base + SIZEOF_U64)
      /\ heap st' = base
      /\ heap_end st' = base + INIIAL_HEAP_SIZE
      /\ first st' = base
      /\ last st' = base
      /\ free_list st' = NULL
      /\ os st' = mkOS (base + INIIAL_HEAP_SIZE) answers
      /\ get_size st' base = request_size size
      /\ is_free st' base = false.
Proof.
  intros fuel base size answers Hb0 Hb Hfit.
  unfold INIIAL_HEAP_SIZE, SIZEOF_U64, SIZEOF_FOOTER in *.
  assert (HN : NEG1 = two64 - 1) by reflexivity. rewrite HN in Hb.
  destruct (request_size_bounds size) as [H8 Hr].
  set (st0 := mkState zero_memory base (base + 1024) NULL NULL NULL
                (mkOS (base + 1024) answers)).
  assert (Hne : (base =? NEG1) = false).
  { apply Z.eqb_neq. unfold NEG1, wrap64, two64 in *.
    change ((-1) mod 18446744073709551616) with 18446744073709551615. lia. }
  assert (Hinit : init (start_state base (true :: answers)) = st0).
  { unfold init, start_state, sbrk, INIIAL_HEAP_SIZE.
    cbn [heap os brk script]. change (NEG1 =? NEG1) with true.
    change (0 =? 0) with true. change (1024 =? 0) with false. cbv iota.
    cbn [script brk]. rewrite Hne. unfold set_heap_end, set_heap, set_os.
    cbn [mem heap heap_end last first free_list os]. unfold st0.
    rewrite wrap64_small by (unfold two64 in *; lia). reflexivity. }
  assert (Hne2 : (base + 1024 =? NEG1) = false).
  { apply Z.eqb_neq. unfold NEG1, wrap64, two64 in *.
    change ((-1) mod 18446744073709551616) with 18446744073709551615. lia. }
  assert (Hgrow : grow_heap answers st0 base (request_size size)
                  = (st0, true)).
  { assert (Hc : (heap_end st0
                  <? wrap64 (base + 8 + request_size size + 8)) = false).
    { apply Z.ltb_ge. cbn [heap_end st0].
      rewrite wrap64_small by (unfold two64 in *; lia). lia. }
    destruct answers; cbn [grow_heap]; unfold SIZEOF_U64, SIZEOF_FOOTER;
      rewrite Hc; reflexivity. }
  assert (Hnab : next_available_block st0 = base) by reflexivity.
  assert (Hok : snd (grow_heap (script (os st0)) st0
                       (next_available_block st0) (request_size size))
                = true).
  { rewrite Hnab. cbn [script os st0]. rewrite Hgrow. reflexivity. }
  destruct (Malloc_carve_header st0 (request_size size) Hr H8 Hok)
    as (Hrd & Hptr & Hlast).
  rewrite Hnab in Hrd, Hptr, Hlast.
  exists (fst (Malloc_carve st0 (request_size size))).
  assert (Hev : request_size size mod 2 = 0)
    by (Z.div_mod_to_equations; lia).
  split; [|split; [|split; [|split; [|split; [|split; [|split; [|split]]]]]]].
  - unfold Malloc. change (heap (start_state base (true :: answers)) =? NEG1)
      with true. cbv iota zeta. rewrite Hinit.
    cbn [heap heap_end st0]. rewrite Hne, Hne2. cbv [orb].
    cbn [first_fit free_list]. change (NULL =? NULL) with true. cbv iota.
    rewrite (surjective_pairing (Malloc_carve _ _)). rewrite Hptr.
    unfold data_addr, SIZEOF_U64.
    rewrite wrap64_small by (unfold two64 in *; lia). reflexivity.
  - unfold Malloc_carve. cbv zeta. rewrite Hnab. cbn [script os st0].
    rewrite Hgrow. cbn [fst].
    destruct (carve_fields
                (set_used (set_used (write st0 base (request_size size)) base)
                   (get_footer_from_header
                      (set_used (write st0 base (request_size size)) base)
                      base)) base) as (Hh & _).
    rewrite Hh. reflexivity.
  - unfold Malloc_carve. cbv zeta. rewrite Hnab. cbn [script os st0].
    rewrite Hgrow. cbn [fst].
    destruct (carve_fields
                (set_used (set_used (write st0 base (request_size size)) base)
                   (get_footer_from_header
                      (set_used (write st0 base (request_size size)) base)
                      base)) base) as (_ & He & _).
    rewrite He. reflexivity.
  - unfold Malloc_carve. cbv zeta. rewrite Hnab. cbn [script os st0].
    rewrite Hgrow. cbn [fst].
    destruct (carve_fields
                (set_used (set_used (write st0 base (request_size size)) base)
                   (get_footer_from_header
                      (set_used (write st0 base (request_size size)) base)
                      base)) base) as (_ & _ & _ & _ & _ & Hf).
    rewrite Hf. reflexivity.
  - exact Hlast.
  - unfold Malloc_carve. cbv zeta. rewrite Hnab. cbn [script os st0].
    rewrite Hgrow. cbn [fst].
    destruct (carve_fields
                (set_used (set_used (write st0 base (request_size size)) base)
                   (get_footer_from_header
                      (set_used (write st0 base (request_size size)) base)
                      base)) base) as (_ & _ & _ & Hfl & _).
    rewrite Hfl. reflexivity.
  - unfold Malloc_carve. cbv zeta. rewrite Hnab. cbn [script os st0].
    rewrite Hgrow. cbn [fst].
    destruct (carve_fields
                (set_used (set_used (write st0 base (request_size size)) base)
                   (get_footer_from_header
                      (set_used (write st0 base (request_size size)) base)
                      base)) base) as (_ & _ & Ho & _).
    rewrite Ho. reflexivity.
  - unfold get_size. rewrite Hrd.
    rewrite land_MASK_M2 by (unfold two32, two64 in *; lia). lia.
  - unfold is_free. rewrite Hrd. rewrite land_1 by lia. rewrite Hev.
    reflexivity.
Qed.

Lemma first_Malloc_sets_up_heap_witness :
  0 < 65536
  /\ 65536 + INIIAL_HEAP_SIZE < NEG1
  /\ request_size 100 + SIZEOF_U64 + SIZEOF_FOOTER <= INIIAL_HEAP_SIZE
  /\ exists st',
      Malloc 1 (start_state 65536 [true; false]) 100
      = Some (st', 65536 + SIZEOF_U64)
      /\ heap st' = 65536
      /\ heap_end st' = 65536 + INIIAL_HEAP_SIZE
      /\ first st' = 65536
      /\ last st' = 65536
      /\ free_list st' = NULL
      /\ os st' = mkOS (65536 + INIIAL_HEAP_SIZE) [false]
      /\ get_size st' 65536 = request_size 100
      /\ is_free st' 65536 = false.
Proof.
  split; [lia|]. split; [vm_compute; reflexivity|].
  split; [vm_compute; discriminate|].
  apply (first_Malloc_sets_up_heap 0 65536 100 [false]).
  - lia.
  - vm_compute. reflexivity.
  - vm_compute. discriminate.
Defined.

(** ** The free-list operations on a well-formed list *)

Lemma succ_in_app l1 : forall a r,
  ~ In a l1 -> succ_in (l1 ++ a :: r) a = hd NULL r.
Proof.
  induction l1 as [|b l1 IH]; intros a r Hn; cbn [app succ_in].
  - rewrite Z.eqb_refl. reflexivity.
  - destruct (Z.eqb_spec b a) as [Hba|Hba].
    + exfalso. apply Hn. left. exact Hba.
    + apply IH. intros H. apply Hn. right. exact H.
Qed.

Lemma free_list_walk_step fuel st block :
  free_list_walk (S fuel) st block
  = if block =? NULL then Some []
    else option_map (cons block)
           (free_list_walk fuel st (read st (next_field block))).
Proof. reflexivity. Qed.

Lemma walk_suffix st l l2 : forall l1,
  l = l1 ++ l2 -> NoDup l -> ~ In NULL l ->
  (forall y, In y l -> read st (next_field y) = succ_in l y) ->
  free_list_walk (S (length l2)) st (hd NULL l2) = Some l2.
Proof.
  induction l2 as [|a r IH]; intros l1 El Hnd Hnn Hnext; [reflexivity|].
  cbn [length hd]. rewrite free_list_walk_step.
  assert (Hin : In a l) by (rewrite El; apply in_elt).
  assert (Ha : (a =? NULL) = false).
  { apply Z.eqb_neq. intros Hc. apply Hnn. rewrite <- Hc. exact Hin. }
  rewrite Ha. rewrite (Hnext a Hin).
  assert (Hnl1 : ~ In a l1).
  { rewrite El in Hnd. apply NoDup_remove_2 in Hnd.
    intros H. apply Hnd. apply in_or_app. left. exact H. }
  rewrite El at 1. rewrite succ_in_app by exact Hnl1.
  rewrite (IH (l1 ++ [a])); [reflexivity| |exact Hnd|exact Hnn|exact Hnext].
  rewrite <- app_assoc. exact El.
Qed.

(** X13: on a well-formed free list the search ends within one step more than
    the list has blocks, with the first block whose size suffices. *)
Theorem first_fit_on_free_list :
  forall (st : state) (l : list Z) (size : Z),
    layout_ok st l = true ->
    links_ok st l = true ->
    free_list_walk (S (length l)) st (free_list st) = Some l
    /\ first_fit (S (length l)) st size (free_list st)
       = Some (match find (fun b => size <=? get_size st b) l with
               | Some b => b
               | None => NULL
               end).
Proof.
  intros st l size HL HK.
  apply layout_ok_Layout in HL. apply links_ok_Links in HK.
  destruct HK as [Hhd Hlk].
  assert (Hw : free_list_walk (S (length l)) st (free_list st) = Some l).
  { rewrite Hhd. apply (walk_suffix st l l []); [reflexivity|apply HL| |].
    - apply (Layout_nonnull st l HL).
    - intros y Hy. apply Hlk, Hy. }
  split; [exact Hw|]. apply first_fit_along_walk. exact Hw.
Qed.

Lemma first_fit_on_free_list_witness :
  layout_ok heap_front_and_fourth_free [65632; 65536] = true
  /\ links_ok heap_front_and_fourth_free [65632; 65536] = true
  /\ free_list_walk 3 heap_front_and_fourth_free
       (free_list heap_front_and_fourth_free) = Some [65632; 65536]
  /\ first_fit 3 heap_front_and_fourth_free 40
       (free_list heap_front_and_fourth_free)
     = Some (match find (fun b => 40 <=? get_size heap_front_and_fourth_free b)
                     [65632; 65536] with
             | Some b => b
             | None => NULL
             end).
Proof.
  split; [vm_compute; reflexivity|]. split; [vm_compute; reflexivity|].
  apply (first_fit_on_free_list heap_front_and_fourth_free [65632; 65536] 40);
    vm_compute; reflexivity.
Defined.

(** X14: [remove_from_free_list] takes a block of a well-formed free list off
    the list: the list is the old one without the block, the block is marked
    used, and every block keeps its size. *)
Theorem remove_from_free_list_unlinks :
  forall (st : state) (l : list Z) (block : Z),
    layout_ok st l = true ->
    links_ok st l = true ->
    member block l = true ->
    links_ok (remove_from_free_list st block) (without block l) = true
    /\ is_free (remove_from_free_list st block) block = false
    /\ forall y, In y l ->
         get_size (remove_from_free_list st block) y = get_size st y.
Proof.
  intros st l x HL HK Hx.
  apply layout_ok_Layout in HL. apply links_ok_Links in HK.
  apply member_In in Hx.
  destruct (remove_Links st l l x HL (incl_refl l) (proj1 HL) HK Hx)
    as (K1 & Z1 & R1).
  split; [apply links_ok_Links; exact K1|]. split; [|exact Z1].
  unfold is_free. rewrite R1. apply land_clear_even, read_range.
Qed.

Lemma remove_from_free_list_unlinks_witness :
  layout_ok heap_front_and_fourth_free [65632; 65536] = true
  /\ links_ok heap_front_and_fourth_free [65632; 65536] = true
  /\ member 65536 [65632; 65536] = true
  /\ links_ok (remove_from_free_list heap_front_and_fourth_free 65536)
       (without 65536 [65632; 65536]) = true
  /\ is_free (remove_from_free_list heap_front_and_fourth_free 65536) 65536
     = false
  /\ forall y, In y [65632; 65536] ->
       get_size (remove_from_free_list heap_front_and_fourth_free 65536) y
       = get_size heap_front_and_fourth_free y.
Proof.
  split; [vm_compute; reflexivity|]. split; [vm_compute; reflexivity|].
  split; [reflexivity|].
  apply (remove_from_free_list_unlinks heap_front_and_fourth_free
           [65632; 65536] 65536); vm_compute; reflexivity.
Defined.

(** X15: [add_to_free_list] puts a block that lies apart from the blocks of a
    well-formed free list in front of the list and marks it free; every
    block keeps its size. *)
Theorem add_to_free_list_links :
  forall (st : state) (l : list Z) (block : Z),
    layout_ok st (block :: l) = true ->
    links_ok st l = true ->
    links_ok (add_to_free_list st block) (block :: l) = true
    /\ is_free (add_to_free_list st block) block = true
    /\ forall y, In y (block :: l) ->
         get_size (add_to_free_list st block) y = get_size st y.
Proof.
  intros st l x HL HK.
  apply layout_ok_Layout in HL. apply links_ok_Links in HK.
  destruct (add_Links st l x HL HK) as (K1 & Z1 & R1 & _).
  split; [apply links_ok_Links; exact K1|]. split; [|exact Z1].
  unfold is_free. rewrite R1. apply lor_1_odd, read_range.
Qed.

Lemma add_to_free_list_links_witness :
  layout_ok heap_front_and_fourth_free (65600 :: [65632; 65536]) = true
  /\ links_ok heap_front_and_fourth_free [65632; 65536] = true
  /\ links_ok (add_to_free_list heap_front_and_fourth_free 65600)
       (65600 :: [65632; 65536]) = true
  /\ is_free (add_to_free_list heap_front_and_fourth_free 65600) 65600 = true
  /\ forall y, In y (65600 :: [65632; 65536]) ->
       get_size (add_to_free_list heap_front_and_fourth_free 65600) y
       = get_size heap_front_and_fourth_free y.
Proof.
  split; [vm_compute; reflexivity|]. split; [vm_compute; reflexivity|].
  apply (add_to_free_list_links heap_front_and_fourth_free
           [65632; 65536] 65600); vm_compute; reflexivity.
Defined.

(** X16: removing a block right after adding it gives the free list back. *)
Theorem remove_after_add :
  forall (st : state) (l : list Z) (block : Z),
    layout_ok st (block :: l) = true ->
    links_ok st l = true ->
    links_ok (remove_from_free_list (add_to_free_list st block) block) l
    = true
    /\ free_list (remove_from_free_list (add_to_free_list st block) block)
       = free_list st
    /\ is_free (remove_from_free_list (add_to_free_list st block) block)
         block = false
    /\ forall y, In y (block :: l) ->
         get_size (remove_from_free_list (add_to_free_list st block) block) y
         = get_size st y.
Proof.
  intros st l x HL HK.
  apply layout_ok_Layout in HL. apply links_ok_Links in HK.
  destruct (add_Links st l x HL HK) as (K1 & Z1 & _ & _).
  assert (L1 : Layout (add_to_free_list st x) (x :: l))
    by (apply (Layout_sizes st); assumption).
  assert (Hxl : ~ In x l).
  { destruct HL as (Hnd & _). apply NoDup_cons_iff in Hnd. apply Hnd. }
  destruct (remove_Links (add_to_free_list st x) (x :: l) (x :: l) x L1
              (incl_refl _) (proj1 L1) K1 (or_introl eq_refl))
    as (K2 & Z2 & R2).
  assert (Hw : without x (x :: l) = l).
  { cbn [without filter]. rewrite Z.eqb_refl. cbn [negb].
    apply without_notin. exact Hxl. }
  rewrite Hw in K2.
  split; [apply links_ok_Links; exact K2|].
  split; [destruct K2 as [-> _]; destruct HK as [-> _]; reflexivity|].
  split.
  - unfold is_free. rewrite R2. apply land_clear_even, read_range.
  - intros y Hy. rewrite (Z2 y Hy). apply Z1, Hy.
Qed.

Lemma remove_after_add_witness :
  layout_ok heap_front_and_fourth_free (65600 :: [65632; 65536]) = true
  /\ links_ok heap_front_and_fourth_free [65632; 65536] = true
  /\ links_ok (remove_from_free_list
                 (add_to_free_list heap_front_and_fourth_free 65600) 65600)
       [65632; 65536] = true
  /\ free_list (remove_from_free_list
                  (add_to_free_list heap_front_and_fourth_free 65600) 65600)
     = free_list heap_front_and_fourth_free
  /\ is_free (remove_from_free_list
                (add_to_free_list heap_front_and_fourth_free 65600) 65600)
       65600 = false
  /\ forall y, In y (65600 :: [65632; 65536]) ->
       get_size (remove_from_free_list
                   (add_to_free_list heap_front_and_fourth_free 65600) 65600)
         y
       = get_size heap_front_and_fourth_free y.
Proof.
  split; [vm_compute; reflexivity|]. split; [vm_compute; reflexivity|].
  apply (remove_after_add heap_front_and_fourth_free [65632; 65536] 65600);
    vm_compute; reflexivity.
Defined.

(** ** The theorems on release at concrete heaps *)

Lemma Free_merges_both_neighbours_witness :
  let st := heap_front_and_fourth_free in
  let p := 65608 in
  let l := [65632; 65536] in
    let m_block := head_addr p in
    let prev_block := left_neighbour st m_block in
    let next_block := right_neighbour st m_block in
    let merged :=
      get_size st prev_block + get_size st m_block + get_size st next_block
      + 2 * (SIZEOF_U64 + SIZEOF_FOOTER) in
    ((p <> NULL)
    /\ (m_block <> first st)
    /\ (m_block <> last st)
    /\ (is_free st prev_block = true)
    /\ (is_free st next_block = true)
    /\ (layout_ok st (m_block :: l) = true)
    /\ (links_ok st l = true)
    /\ (member prev_block l = true)
    /\ (member next_block l = true)
    /\ (block_end st prev_block = m_block))
    /\ (links_ok (Free st p)
      (prev_block :: without prev_block (without next_block l)) = true
    /\ last (Free st p)
       = (if next_block =? last st then prev_block else last st)
    /\ read (Free st p) prev_block = Z.lor merged 1
    /\ read (Free st p) (get_footer_from_header st next_block)
       = Z.lor merged 1
    /\ get_footer_from_header (Free st p) prev_block
       = get_footer_from_header st next_block
    /\ first (Free st p) = first st
    /\ heap (Free st p) = heap st
    /\ heap_end (Free st p) = heap_end st).
Proof.
  cbv zeta. split.
  - split_all; vm_compute; first [reflexivity | discriminate].
  - apply (Free_merges_both_neighbours heap_front_and_fourth_free 65608 [65632; 65536]);
      vm_compute; first [reflexivity | discriminate].
Defined.

Lemma Free_merges_right_neighbour_witness :
  let st := heap_second_free in
  let p := 65544 in
  let l := [65568] in
    let m_block := head_addr p in
    let prev_block := left_neighbour st m_block in
    let next_block := right_neighbour st m_block in
    let merged :=
      get_size st m_block + get_size st next_block
      + (SIZEOF_U64 + SIZEOF_FOOTER) in
    ((p <> NULL)
    /\ (m_block <> last st)
    /\ (is_free st next_block = true)
    /\ (negb (prev_block =? NULL) && is_free st prev_block = false)
    /\ (layout_ok st (m_block :: l) = true)
    /\ (links_ok st l = true)
    /\ (member next_block l = true))
    /\ (links_ok (Free st p) (m_block :: without next_block l) = true
    /\ last (Free st p) = (if next_block =? last st then m_block else last st)
    /\ read (Free st p) m_block = Z.lor merged 1
    /\ read (Free st p) (get_footer_from_header st next_block)
       = Z.lor merged 1
    /\ get_footer_from_header (Free st p) m_block
       = get_footer_from_header st next_block
    /\ first (Free st p) = first st
    /\ heap (Free st p) = heap st
    /\ heap_end (Free st p) = heap_end st).
Proof.
  cbv zeta. split.
  - split_all; vm_compute; first [reflexivity | discriminate].
  - apply (Free_merges_right_neighbour heap_second_free 65544 [65568]);
      vm_compute; first [reflexivity | discriminate].
Defined.

Lemma Free_merges_left_neighbour_witness :
  let st := heap_front_free in
  let p := 65608 in
  let l := [65536] in
    let m_block := head_addr p in
    let prev_block := left_neighbour st m_block in
    let next_block := right_neighbour st m_block in
    let merged :=
      get_size st prev_block + get_size st m_block
      + (SIZEOF_U64 + SIZEOF_FOOTER) in
    ((p <> NULL)
    /\ (is_free st prev_block = true)
    /\ (negb (next_block =? NULL) && is_free st next_block = false)
    /\ (layout_ok st (m_block :: l) = true)
    /\ (links_ok st l = true)
    /\ (member prev_block l = true)
    /\ (block_end st prev_block = m_block))
    /\ (links_ok (Free st p) (prev_block :: without prev_block l) = true
    /\ last (Free st p) = (if m_block =? last st then prev_block else last st)
    /\ read (Free st p) prev_block = Z.lor merged 1
    /\ read (Free st p) (get_footer_from_header st m_block)
       = Z.lor merged 1
    /\ get_footer_from_header (Free st p) prev_block
       = get_footer_from_header st m_block
    /\ first (Free st p) = first st
    /\ heap (Free st p) = heap st
    /\ heap_end (Free st p) = heap_end st).
Proof.
  cbv zeta. split.
  - split_all; vm_compute; first [reflexivity | discriminate].
  - apply (Free_merges_left_neighbour heap_front_free 65608 [65536]);
      vm_compute; first [reflexivity | discriminate].
Defined.

Lemma Free_without_free_neighbour_witness :
  let st := heap_all_used in
  let p := 65576 in
  let l := @nil Z in
  let m_block := head_addr p in
  let prev_block := left_neighbour st m_block in
  let next_block := right_neighbour st m_block in
  ((p <> NULL)
   /\ (negb (prev_block =? NULL) && is_free st prev_block = false)
   /\ (negb (next_block =? NULL) && is_free st next_block = false)
   /\ (layout_ok st (m_block :: l) = true)
   /\ (links_ok st l = true))
  /\ (links_ok (Free st p) (m_block :: l) = true
      /\ is_free (Free st p) m_block = true
      /\ is_free (Free st p) (get_footer_from_header st m_block) = true
      /\ (forall y, In y (m_block :: l) ->
            get_size (Free st p) y = get_size st y)
      /\ same_markers st (Free st p)).
Proof.
  cbv zeta. split.
  - split_all; vm_compute; first [reflexivity | discriminate].
  - apply (Free_without_free_neighbour heap_all_used 65576 (@nil Z));
      vm_compute; first [reflexivity | discriminate].
Defined.
